(** * matriz-cobranza: the delinquency-aging engine of [funciones_creditos.py]

    A shallow embedding of the pandas code and the properties of its
    specification.

    Modelling conventions.
    - A [pd.Timestamp] is a calendar date (year, month, day): the columns of
      the credit and payment tables are dates, and the reference date is taken
      at midnight.  Comparison and subtraction of timestamps go through the
      day number of the date, as pandas compares and subtracts the offsets
      from its epoch.
    - A pandas Series of floats with NaN for "missing" is a function to
      [option]: [None] is NaN (or NaT for dates, [pd.NA] for the status).
    - Amounts are exact rationals ([Q]); the binary rounding error of float64
      is not modelled.  [np.round] is round-half-to-even.
    - The two input tables have all their columns, typed as in the data
      model and without nulls, and the credit table is indexed by the credit
      identifier (the code reindexes the grouped ledger by
      [creditos.index]); what the code does on a table that lacks a column
      is outside the embedding. *)

From Stdlib Require Import ZArith QArith Qround List String Bool Lia.
From Stdlib Require Import Permutation Sorted Lqa.
Import ListNotations.

Local Open Scope string_scope.
Local Open Scope list_scope.
Local Open Scope Z_scope.

(** ** Calendar *)

Module Calendar.

Record Timestamp : Set := mkTimestamp { year : Z; month : Z; day : Z }.

Definition is_leap_year (y : Z) : bool :=
  (y mod 4 =? 0) && (negb (y mod 100 =? 0) || (y mod 400 =? 0)).

Definition days_in_month (y m : Z) : Z :=
  if m =? 2 then (if is_leap_year y then 29 else 28)
  else if (m =? 4) || (m =? 6) || (m =? 9) || (m =? 11) then 30
  else 31.

(** Number of days before January 1st of year [y] (proleptic Gregorian). *)
Definition days_before_year (y : Z) : Z :=
  let p := y - 1 in 365 * p + p / 4 - p / 100 + p / 400.

(** Number of days of year [y] before the first day of month [m]. *)
Definition days_before_month (y m : Z) : Z :=
  let feb := if is_leap_year y then 29 else 28 in
  if m <=? 1 then 0
  else if m =? 2 then 31
  else if m =? 3 then 31 + feb
  else if m =? 4 then 62 + feb
  else if m =? 5 then 92 + feb
  else if m =? 6 then 123 + feb
  else if m =? 7 then 153 + feb
  else if m =? 8 then 184 + feb
  else if m =? 9 then 215 + feb
  else if m =? 10 then 245 + feb
  else if m =? 11 then 276 + feb
  else 306 + feb.

Definition days_in_year (y : Z) : Z := if is_leap_year y then 366 else 365.

(** Day number of a date; the difference of two of them is
    [(a - b).days]. *)
Definition toordinal (t : Timestamp) : Z :=
  days_before_year (year t) + days_before_month (year t) (month t) + day t.

(** What a [pd.Timestamp] can hold. *)
Definition valid (t : Timestamp) : Prop :=
  1 <= month t <= 12 /\ 1 <= day t <= days_in_month (year t) (month t).

Definition validb (t : Timestamp) : bool :=
  (1 <=? month t) && (month t <=? 12) && (1 <=? day t)
  && (day t <=? days_in_month (year t) (month t)).

(** Comparisons of timestamps. *)
Definition leb (a b : Timestamp) : bool := toordinal a <=? toordinal b.
Definition ltb (a b : Timestamp) : bool := toordinal a <? toordinal b.
Definition eqb (a b : Timestamp) : bool := toordinal a =? toordinal b.

(** [(a - b).days] *)
Definition days_between (a b : Timestamp) : Z := toordinal a - toordinal b.

(** [t + pd.offsets.MonthEnd(0)]: [t] rolled forward to the last day of its
    month (unchanged when it already is that day). *)
Definition MonthEnd0 (t : Timestamp) : Timestamp :=
  mkTimestamp (year t) (month t) (days_in_month (year t) (month t)).

(** [t.to_period('M').start_time] *)
Definition month_start (t : Timestamp) : Timestamp :=
  mkTimestamp (year t) (month t) 1.

(** [(t.to_period('M') + 1).start_time] *)
Definition next_month_start (t : Timestamp) : Timestamp :=
  if month t =? 12 then mkTimestamp (year t + 1) 1 1
  else mkTimestamp (year t) (month t + 1) 1.

(** [t - pd.Timedelta(days=1)] *)
Definition minus_one_day (t : Timestamp) : Timestamp :=
  if 1 <? day t then mkTimestamp (year t) (month t) (day t - 1)
  else if 1 <? month t
       then mkTimestamp (year t) (month t - 1)
                        (days_in_month (year t) (month t - 1))
       else mkTimestamp (year t - 1) 12 31.

(** Calendar order on the fields. *)
Definition lex_lt (a b : Timestamp) : Prop :=
  year a < year b
  \/ (year a = year b
      /\ (month a < month b \/ (month a = month b /\ day a < day b))).

End Calendar.

Import Calendar.

(** ** Values of a pandas Series *)

(** Comparisons with a missing operand are false, as with NaN. *)
Module Nullable.

Definition notnull {A} (x : option A) : bool :=
  match x with Some _ => true | None => false end.

Definition isnull {A} (x : option A) : bool := negb (notnull x).

Definition Qltb (x y : Q) : bool :=
  match (x ?= y)%Q with Lt => true | _ => false end.

Definition Qleb (x y : Q) : bool :=
  match (x ?= y)%Q with Gt => false | _ => true end.

Definition test2 {A} (f : A -> A -> bool) (x y : option A) : bool :=
  match x, y with Some a, Some b => f a b | _, _ => false end.

Definition lt_Q := test2 Qltb.
Definition le_Q := test2 Qleb.
Definition gt_Q (x y : option Q) := test2 Qltb y x.

(** [x > k] for a column of day counts *)
Definition gt_Z (x : option Z) (k : Z) : bool :=
  match x with Some v => k <? v | None => false end.

End Nullable.

Import Nullable.

(** A float64 that holds a whole number, an infinity or NaN: the element type
    of the [atraso_pagos] column, where the division by [cuota_mensual] may
    have divided by zero. *)
Inductive Float : Set :=
| NaN : Float
| NegInf : Float
| Int (z : Z) : Float
| PosInf : Float.

Module FloatOps.

Definition le_k (x : Float) (k : Z) : bool :=
  match x with
  | NaN => false | NegInf => true | Int z => z <=? k | PosInf => false
  end.

Definition ge_k (x : Float) (k : Z) : bool :=
  match x with
  | NaN => false | NegInf => false | Int z => k <=? z | PosInf => true
  end.

(** The order of the floats that are numbers; nothing is related to NaN. *)
Definition le (x y : Float) : Prop :=
  match x, y with
  | NaN, _ | _, NaN => False
  | NegInf, _ => True
  | _, PosInf => True
  | Int a, Int b => a <= b
  | _, _ => False
  end.

End FloatOps.

(** [np.round(x, 0)]: to the nearest whole number, a tie going to the even
    one. *)
Definition np_round (x : Q) : Z :=
  let f := Qfloor x in
  match (x - inject_Z f ?= 1 # 2)%Q with
  | Lt => f
  | Gt => f + 1
  | Eq => if Z.even f then f else f + 1
  end.

(** Failure of a call: the only exception the modelled code can raise is the
    [TypeError] of [if pd.NA: ...]. *)
Inductive resultado (A : Type) : Type :=
| Ok (a : A)
| TypeError.

Arguments Ok {A} a.
Arguments TypeError {A}.

Definition bind {A B} (r : resultado A) (k : A -> resultado B) : resultado B :=
  match r with Ok a => k a | TypeError => TypeError end.

Fixpoint mapM {A B} (f : A -> resultado B) (l : list A) : resultado (list B) :=
  match l with
  | [] => Ok []
  | a :: l' => bind (f a) (fun b => bind (mapM f l') (fun bs => Ok (b :: bs)))
  end.

(** ** The two input tables *)

Record Credito : Set := mkCredito {
  fecha_apertura : Timestamp;
  fecha_primer_pago : Timestamp;
  plazo : Z;
  cuota_mensual : Q;
  saldo_inicial : Q;
  fecha_cierre : option Timestamp
}.

Record Pago : Set := mkPago {
  id_credito : Z;
  fecha_pago : Timestamp;
  monto_pago : Q;
  saldo_posterior : Q
}.

(** [creditos]: rows in table order, each with its index label (the credit
    identifier).  [creditos_pagos]: the ledger rows in table order. *)
Definition Creditos := list (Z * Credito).
Definition CreditosPagos := list Pago.

(** A Series over [creditos.index]. *)
Definition Series (A : Type) := list (Z * A).

(** ** Ledger grouping *)

(** [creditos_pagos[creditos_pagos['fecha_pago'] <= fecha]] *)
Definition pagos_filtrados (creditos_pagos : CreditosPagos) (fecha : Timestamp)
  : CreditosPagos :=
  filter (fun p => leb (fecha_pago p) fecha) creditos_pagos.

(** The rows of one group of [groupby('id_credito')], in table order. *)
Definition grupo (i : Z) (pagos : CreditosPagos) : CreditosPagos :=
  filter (fun p => id_credito p =? i) pagos.

Definition suma (l : list Q) : Q := fold_left Qplus l 0%Q.

(** [pagos.groupby('id_credito')[col].sum().reindex(creditos.index)] at label
    [i]: NaN when the group does not exist. *)
Definition groupby_sum (col : Pago -> Q) (pagos : CreditosPagos) (i : Z)
  : option Q :=
  match grupo i pagos with
  | [] => None
  | g => Some (suma (map col g))
  end.

Fixpoint ultimo {A} (l : list A) : option A :=
  match l with
  | [] => None
  | [a] => Some a
  | _ :: l' => ultimo l'
  end.

(** [pagos.groupby('id_credito')[col].last().reindex(creditos.index)] at label
    [i]: the value in the last row of the group. *)
Definition groupby_last {A} (col : Pago -> A) (pagos : CreditosPagos) (i : Z)
  : option A :=
  ultimo (map col (grupo i pagos)).

(** ** The derivations

    Every function below gives the element of the Series the Python function
    returns at one credit: [i] is the index label of the credit and [c] its
    row of [creditos]. *)

(** [s.clip(lower=lower, upper=upper)] with a column as upper bound: pandas
    first replaces by [lower] the values below it, then replaces by [upper]
    the values that were above [upper] before the first replacement.  This is
    [min (max x lower) upper] when [lower <= upper]. *)
Definition clip (lower upper x : Z) : Z :=
  let result := if lower <=? x then x else lower in
  if x <=? upper then result else upper.

(** Months between the reference date and the first payment, before
    clipping. *)
Definition meses_transcurridos (c : Credito) (fecha : Timestamp) : Z :=
  let ultimo_dia_mes := MonthEnd0 fecha in
  let es_ultimo_dia_mes := eqb fecha ultimo_dia_mes in
  (year fecha - year (fecha_primer_pago c)) * 12
  + (month fecha - month (fecha_primer_pago c))
  - (if negb es_ultimo_dia_mes && (day fecha <? day (fecha_primer_pago c))
     then 1 else 0)
  + 1.

Definition pagos_requeridos (c : Credito) (fecha : Timestamp) : option Z :=
  let pagos_req := meses_transcurridos c fecha in
  let pagos_req := clip 0 (plazo c) pagos_req in
  if leb (fecha_apertura c) fecha then Some pagos_req else None.

(** The product is exact here; the float64 product of the code is the
    nearest double, which can differ from it in the last place. *)
Definition monto_requerido (c : Credito) (pagos_req : option Z) : option Q :=
  option_map (fun n => (cuota_mensual c * inject_Z n)%Q) pagos_req.

Definition monto_pagado (i : Z) (c : Credito) (creditos_pagos : CreditosPagos)
           (fecha : Timestamp) : option Q :=
  let pagos_filtrados := pagos_filtrados creditos_pagos fecha in
  let monto_pag := groupby_sum monto_pago pagos_filtrados i in
  if ltb fecha (fecha_apertura c) || notnull monto_pag
  then monto_pag else Some 0%Q.

Definition ATRASADO : string := "Atrasado".
Definition AL_CORRIENTE : string := "Al Corriente".
Definition ADELANTADO : string := "Adelantado".

Definition estatus (monto_req monto_pag : option Q) : option string :=
  let umbral := option_map (fun r => (r * (98 # 100))%Q) monto_req in
  let est := None in
  let est := if lt_Q monto_pag umbral then Some ATRASADO else est in
  let est := if le_Q umbral monto_pag && le_Q monto_pag monto_req
             then Some AL_CORRIENTE else est in
  let est := if gt_Q monto_pag monto_req then Some ADELANTADO else est in
  est.

Definition fecha_ultimo_pago (i : Z) (creditos_pagos : CreditosPagos)
           (fecha : Timestamp) : option Timestamp :=
  groupby_last fecha_pago (pagos_filtrados creditos_pagos fecha) i.

Definition dias_sin_pagar (c : Credito) (fecha_ult_pago : option Timestamp)
           (fecha : Timestamp) : option Z :=
  let dias :=
    option_map (fun u => Z.max (days_between fecha u - 30) 0) fecha_ult_pago in
  if isnull dias && leb (fecha_apertura c) fecha
  then Some (days_between fecha (fecha_apertura c))
  else dias.

Definition epsilon : Q := 1 # 10000000000.

(** The quotient, the added [1e-10] and the rounding are exact here.  In
    float64 the added [1e-10] is lost next to a quotient of 2^20 or more, so
    the two agree on ties only below 2^20 installments. *)
Definition atraso_pagos (c : Credito) (pagos_req : option Z)
           (monto_pag : option Q) : Float :=
  match pagos_req, monto_pag with
  | Some req, Some pag =>
      if Qeq_bool (cuota_mensual c) 0
      then (* pag / 0 is +inf, -inf or NaN, and so is its rounding *)
        match (pag ?= 0)%Q with
        | Gt => NegInf
        | Lt => PosInf
        | Eq => NaN
        end
      else
        let pagos_realizados := np_round (pag / cuota_mensual c + epsilon)%Q in
        Int (req - pagos_realizados)
  | _, _ => NaN
  end.

(** The row [tipo_paridad] hands to [logica_paridad]. *)
Module Fila.
Record t : Set := mk {
  fecha_apertura : Timestamp;
  estatus : option string;
  dias_sin_pagar : option Z;
  atraso_pagos : Float
}.
End Fila.

Definition logica_paridad (row : Fila.t) (fecha : Timestamp)
  : resultado string :=
  let dias := Fila.dias_sin_pagar row in
  let atraso := Fila.atraso_pagos row in
  if ltb fecha (Fila.fecha_apertura row) then Ok "Al Corriente"
  else if FloatOps.le_k atraso 0 then
    match Fila.estatus row with
    | None => TypeError
    | Some est =>
        if negb (String.eqb est "Atrasado") then Ok "Al Corriente"
        else if gt_Z dias 360 then Ok "PAR 360"
        else if gt_Z dias 270 then Ok "PAR 270"
        else if gt_Z dias 180 then Ok "PAR 180"
        else if gt_Z dias 150 then Ok "PAR 150"
        else if gt_Z dias 120 then Ok "PAR 120"
        else if gt_Z dias 90 then Ok "PAR 90"
        else if gt_Z dias 60 then Ok "PAR 60"
        else if gt_Z dias 30 then Ok "PAR 30"
        else Ok "PAR 1"
    end
  else if gt_Z dias 360 || FloatOps.ge_k atraso 13 then Ok "PAR 360"
  else if gt_Z dias 270 || FloatOps.ge_k atraso 10 then Ok "PAR 270"
  else if gt_Z dias 180 || FloatOps.ge_k atraso 7 then Ok "PAR 180"
  else if gt_Z dias 150 || FloatOps.ge_k atraso 6 then Ok "PAR 150"
  else if gt_Z dias 120 || FloatOps.ge_k atraso 5 then Ok "PAR 120"
  else if gt_Z dias 90 || FloatOps.ge_k atraso 4 then Ok "PAR 90"
  else if gt_Z dias 60 || FloatOps.ge_k atraso 3 then Ok "PAR 60"
  else if gt_Z dias 30 || FloatOps.ge_k atraso 2 then Ok "PAR 30"
  else Ok "PAR 1".

Definition tipo_paridad (c : Credito) (estatus_series : option string)
           (dias_sin_pagar_series : option Z) (atraso_series : Float)
           (fecha : Timestamp) : resultado string :=
  let row := Fila.mk (fecha_apertura c) estatus_series dias_sin_pagar_series
                     atraso_series in
  logica_paridad row fecha.

(** The pipeline of [paridad] at one credit. *)
Definition paridad_credito (i : Z) (c : Credito)
           (creditos_pagos : CreditosPagos) (fecha : Timestamp)
  : resultado string :=
  let pagos_req := pagos_requeridos c fecha in
  let monto_req := monto_requerido c pagos_req in
  let monto_pag := monto_pagado i c creditos_pagos fecha in
  let estatus_series := estatus monto_req monto_pag in
  let fecha_ult_pago := fecha_ultimo_pago i creditos_pagos fecha in
  let dias_sin_pago := dias_sin_pagar c fecha_ult_pago fecha in
  let atraso_series := atraso_pagos c pagos_req monto_pag in
  tipo_paridad c estatus_series dias_sin_pago atraso_series fecha.

(** [saldo] at one credit. *)
Definition saldo_credito (i : Z) (c : Credito) (creditos_pagos : CreditosPagos)
           (fecha : Timestamp) : Q :=
  let pagos_filtrados := pagos_filtrados creditos_pagos fecha in
  let saldo_series := groupby_last saldo_posterior pagos_filtrados i in
  match saldo_series with
  | Some s => s
  | None => saldo_inicial c
  end.

Definition fecha_maxima : Timestamp := mkTimestamp 2200 12 31.

(** [creditos['fecha_cierre'].fillna(fecha_maxima)] *)
Definition fecha_final (c : Credito) : Timestamp :=
  match fecha_cierre c with Some f => f | None => fecha_maxima end.

(** The mask of [considerar] at one credit. *)
Definition considerado (c : Credito) (fecha : Timestamp) : bool :=
  let fecha_actual := month_start fecha in
  let fecha_inicial := next_month_start (fecha_apertura c) in
  leb fecha_inicial fecha_actual && ltb fecha_actual (fecha_final c).

(** ** The public entry points, over the whole tables *)

(** [df.apply] raises as soon as one row raises. *)
Definition paridad (creditos : Creditos) (creditos_pagos : CreditosPagos)
           (fecha : Timestamp) : resultado (Series string) :=
  mapM (fun ic : Z * Credito =>
          bind (paridad_credito (fst ic) (snd ic) creditos_pagos fecha)
               (fun b => Ok (fst ic, b)))
       creditos.

(** [fecha.to_period('M').start_time - pd.Timedelta(days=1)]: the last day of
    the month before the reference date. *)
Definition fecha_ajustada (fecha : Timestamp) : Timestamp :=
  minus_one_day (month_start fecha).

Definition paridad_inicial (creditos : Creditos)
           (creditos_pagos : CreditosPagos) (fecha : Timestamp)
  : resultado (Series string) :=
  paridad creditos creditos_pagos (fecha_ajustada fecha).

Definition saldo (creditos : Creditos) (creditos_pagos : CreditosPagos)
           (fecha : Timestamp) : Series Q :=
  map (fun ic : Z * Credito =>
         (fst ic, saldo_credito (fst ic) (snd ic) creditos_pagos fecha))
      creditos.

(** The Python function [saldo_inicial]; the name is taken here by the column
    ['saldo_inicial'] of the credit table. *)
Definition saldo_inicial_periodo (creditos : Creditos)
           (creditos_pagos : CreditosPagos) (fecha : Timestamp) : Series Q :=
  saldo creditos creditos_pagos (fecha_ajustada fecha).

Definition considerar (creditos : Creditos) (fecha : Timestamp) : Creditos :=
  filter (fun ic : Z * Credito => considerado (snd ic) fecha) creditos.

(** ** The aging rules as the specification words them *)

(** The ordered threshold table: bucket, day threshold, arrears threshold. *)
Definition tabla_umbrales : list (string * Z * Z) :=
  [ ("PAR 360", 360, 13); ("PAR 270", 270, 10); ("PAR 180", 180, 7);
    ("PAR 150", 150, 6);  ("PAR 120", 120, 5);  ("PAR 90", 90, 4);
    ("PAR 60", 60, 3);    ("PAR 30", 30, 2) ].

(** One scan from the top; the first row that matches wins, on the day
    threshold OR the arrears threshold. *)
Fixpoint primera_coincidencia (tabla : list (string * Z * Z))
         (dias : option Z) (atraso : Float) : string :=
  match tabla with
  | [] => "PAR 1"
  | (bucket, umbral_dias, umbral_atraso) :: resto =>
      if gt_Z dias umbral_dias || FloatOps.ge_k atraso umbral_atraso
      then bucket
      else primera_coincidencia resto dias atraso
  end.

(** Rules 2 and 3 of the aging bucket, for a credit that has opened. *)
Definition aging_bucket_tabla (payment_status : string) (dias : option Z)
           (atraso : Float) : string :=
  if FloatOps.le_k atraso 0 && negb (String.eqb payment_status "Atrasado")
  then "Al Corriente"
  else primera_coincidencia tabla_umbrales dias atraso.

(** ** Derived notions the properties are stated with *)

(** The ledger rows of credit [i] that count at a reference date. *)
Definition calificados (i : Z) (creditos_pagos : CreditosPagos)
           (fecha : Timestamp) : CreditosPagos :=
  grupo i (pagos_filtrados creditos_pagos fecha).

(** A ledger row counts for credit [i] at the reference date. *)
Definition califica (i : Z) (fecha : Timestamp) (p : Pago) : bool :=
  leb (fecha_pago p) fecha && (id_credito p =? i).

(** The order of the payment dates. *)
Definition no_posterior (a b : Pago) : Prop :=
  leb (fecha_pago a) (fecha_pago b) = true.

(** The two columns as [paridad] computes them at a reference date. *)
Definition dias_sin_pagar_en (i : Z) (c : Credito)
           (creditos_pagos : CreditosPagos) (fecha : Timestamp) : option Z :=
  dias_sin_pagar c (fecha_ultimo_pago i creditos_pagos fecha) fecha.

Definition atraso_pagos_en (i : Z) (c : Credito)
           (creditos_pagos : CreditosPagos) (fecha : Timestamp) : Float :=
  atraso_pagos c (pagos_requeridos c fecha)
               (monto_pagado i c creditos_pagos fecha).

(** No payment of credit [i] is dated in (d1, d2]. *)
Definition sin_pagos_entre (i : Z) (creditos_pagos : CreditosPagos)
           (d1 d2 : Timestamp) : Prop :=
  forall p, In p creditos_pagos -> id_credito p = i ->
            ltb d1 (fecha_pago p) = true -> leb (fecha_pago p) d2 = true ->
            False.

(** The faults of an input the specification lists, for tables that have all
    their columns: a payment of a credit that is not in the credit table, a
    negative term, an installment that is not positive, a closing date before
    the opening date. *)
Definition pago_huerfano (creditos : Creditos) (p : Pago) : bool :=
  negb (existsb (fun ic : Z * Credito => fst ic =? id_credito p) creditos).

Definition credito_invalido (c : Credito) : bool :=
  (plazo c <? 0)
  || Qleb (cuota_mensual c) 0
  || match fecha_cierre c with
     | Some cierre => ltb cierre (fecha_apertura c)
     | None => false
     end.

Definition entrada_con_falla (creditos : Creditos)
           (creditos_pagos : CreditosPagos) : bool :=
  existsb (pago_huerfano creditos) creditos_pagos
  || existsb (fun ic : Z * Credito => credito_invalido (snd ic)) creditos.

Definition falla {A} (r : resultado A) : bool :=
  match r with Ok _ => false | TypeError => true end.

(** The labels [logica_paridad] can return, from the mildest to the most
    severe, and the position of a label in that order. *)
Definition etiquetas : list string :=
  [ "Al Corriente"; "PAR 1"; "PAR 30"; "PAR 60"; "PAR 90"; "PAR 120";
    "PAR 150"; "PAR 180"; "PAR 270"; "PAR 360" ].

Fixpoint posicion (bucket : string) (l : list string) : Z :=
  match l with
  | [] => 0
  | x :: resto =>
      if String.eqb bucket x then 0 else 1 + posicion bucket resto
  end.

Definition severidad (bucket : string) : Z := posicion bucket etiquetas.

(** The severity the day thresholds alone give, and the severity the arrears
    thresholds alone give. *)
Definition severidad_dias (dias : option Z) : Z :=
  if gt_Z dias 360 then 9
  else if gt_Z dias 270 then 8
  else if gt_Z dias 180 then 7
  else if gt_Z dias 150 then 6
  else if gt_Z dias 120 then 5
  else if gt_Z dias 90 then 4
  else if gt_Z dias 60 then 3
  else if gt_Z dias 30 then 2
  else 1.

Definition severidad_atraso (atraso : Float) : Z :=
  if FloatOps.ge_k atraso 13 then 9
  else if FloatOps.ge_k atraso 10 then 8
  else if FloatOps.ge_k atraso 7 then 7
  else if FloatOps.ge_k atraso 6 then 6
  else if FloatOps.ge_k atraso 5 then 5
  else if FloatOps.ge_k atraso 4 then 4
  else if FloatOps.ge_k atraso 3 then 3
  else if FloatOps.ge_k atraso 2 then 2
  else 1.


(** ** Worked scenarios *)

Module Escenarios.

(** Credit opened 2023-01-01, first payment 2023-02-01, term 12,
    installment 1000, observed on 2023-05-15 with an empty ledger. *)
Definition credito : Credito :=
  mkCredito (mkTimestamp 2023 1 1) (mkTimestamp 2023 2 1) 12 1000 12000 None.
Definition fecha : Timestamp := mkTimestamp 2023 5 15.
Definition sin_pagos : CreditosPagos := [].
Definition fila : Fila.t :=
  Fila.mk (mkTimestamp 2023 1 1) (Some "Atrasado") (Some 134) (Int 4).

(** The same credit with its first payment due on the 20th. *)
Definition credito_dia_20 : Credito :=
  mkCredito (mkTimestamp 2023 1 1) (mkTimestamp 2023 2 20) 12 1000 12000 None.

(** The same credit after one payment of 4000 on 2023-05-10. *)
Definition pago_total : CreditosPagos :=
  [ mkPago 1 (mkTimestamp 2023 5 10) 4000 8000 ].

(** A credit 30 installments into its term that has paid 29.4 of them, the
    last time a fortnight before the reference date. *)
Definition credito_largo : Credito :=
  mkCredito (mkTimestamp 2020 1 1) (mkTimestamp 2020 2 1) 36 1000 36000 None.
Definition fecha_larga : Timestamp := mkTimestamp 2022 7 15.
Definition pagos_largos : CreditosPagos :=
  [ mkPago 1 (mkTimestamp 2022 7 1) 29400 6600 ].
Definition fila_dos_atrasos : Fila.t :=
  Fila.mk (mkTimestamp 2020 1 1) (Some "Atrasado") (Some 0) (Int 2).
Definition fila_un_atraso : Fila.t :=
  Fila.mk (mkTimestamp 2020 1 1) (Some "Al Corriente") (Some 0) (Int 1).

(** A credit that opens on 2023-06-01 with a payment booked a month
    earlier. *)
Definition credito_futuro : Credito :=
  mkCredito (mkTimestamp 2023 6 1) (mkTimestamp 2023 7 1) 12 1000 12000 None.
Definition pago_anticipado : CreditosPagos :=
  [ mkPago 1 (mkTimestamp 2023 5 1) 500 11500 ].

(** Opened 2023-01-10 and closed 2023-03-15; the same credit closed on the
    first day of March; the same credit never closed. *)
Definition cerrado_dia_15 : Credito :=
  mkCredito (mkTimestamp 2023 1 10) (mkTimestamp 2023 2 10) 12 1000 12000
            (Some (mkTimestamp 2023 3 15)).
Definition cerrado_dia_1 : Credito :=
  mkCredito (mkTimestamp 2023 1 10) (mkTimestamp 2023 2 10) 12 1000 12000
            (Some (mkTimestamp 2023 3 1)).
Definition sin_cierre : Credito :=
  mkCredito (mkTimestamp 2023 1 10) (mkTimestamp 2023 2 10) 12 1000 12000
            None.

(** Two payments of the first credit, in ledger order and swapped. *)
Definition pago_febrero : Pago := mkPago 1 (mkTimestamp 2023 2 1) 1000 11000.
Definition pago_marzo : Pago := mkPago 1 (mkTimestamp 2023 3 1) 1000 10000.
Definition pagos_en_orden : CreditosPagos := [ pago_febrero; pago_marzo ].
Definition pagos_permutados : CreditosPagos := [ pago_marzo; pago_febrero ].

(** A table with every modelled fault: the first credit has a negative term
    and a closing date before its opening, the second a negative installment,
    and the only payment is of a credit that is not in the table. *)
Definition credito_defectuoso : Credito :=
  mkCredito (mkTimestamp 2023 1 1) (mkTimestamp 2023 2 1) (-3) 1000 12000
            (Some (mkTimestamp 2022 12 1)).
Definition credito_cuota_negativa : Credito :=
  mkCredito (mkTimestamp 2023 1 1) (mkTimestamp 2023 2 1) 12 (-1000) 12000
            None.
Definition creditos_defectuosos : Creditos :=
  [ (1, credito_defectuoso); (2, credito_cuota_negativa) ].
Definition pagos_huerfanos : CreditosPagos :=
  [ mkPago 99 (mkTimestamp 2023 3 1) 1000 0 ].

End Escenarios.

(** * Properties *)

(** ** The calendar *)

Section CalendarFacts.

Lemma validb_valid t : validb t = true <-> valid t.
Proof.
  unfold validb, valid.
  rewrite !andb_true_iff, !Z.leb_le. tauto.
Qed.

Lemma days_in_month_bounds y m : 28 <= days_in_month y m <= 31.
Proof.
  unfold days_in_month.
  destruct (m =? 2); [destruct (is_leap_year y); lia|].
  destruct ((m =? 4) || (m =? 6) || (m =? 9) || (m =? 11)); lia.
Qed.

(** Each month starts where the previous one ends. *)
Lemma days_before_month_succ y m :
  1 <= m <= 11 ->
  days_before_month y (m + 1) = days_before_month y m + days_in_month y m.
Proof.
  intros Hm.
  assert (Hc : m = 1 \/ m = 2 \/ m = 3 \/ m = 4 \/ m = 5 \/ m = 6 \/ m = 7
               \/ m = 8 \/ m = 9 \/ m = 10 \/ m = 11) by lia.
  unfold days_before_month, days_in_month.
  destruct (is_leap_year y);
    repeat (destruct Hc as [-> | Hc]; [reflexivity|]); subst m; reflexivity.
Qed.

Lemma days_before_month_mono y m1 m2 :
  1 <= m1 -> m1 < m2 -> m2 <= 12 ->
  days_before_month y m1 + days_in_month y m1 <= days_before_month y m2.
Proof.
  intros H1 Hlt H2.
  replace m2 with (m1 + 1 + Z.of_nat (Z.to_nat (m2 - m1 - 1))) by lia.
  assert (Hb : m1 + 1 + Z.of_nat (Z.to_nat (m2 - m1 - 1)) <= 12) by lia.
  induction (Z.to_nat (m2 - m1 - 1)) as [|k IH].
  - rewrite Z.add_0_r, days_before_month_succ by lia. lia.
  - replace (m1 + 1 + Z.of_nat (S k)) with (m1 + 1 + Z.of_nat k + 1) by lia.
    rewrite days_before_month_succ by lia.
    pose proof (days_in_month_bounds y (m1 + 1 + Z.of_nat k)).
    assert (m1 + 1 + Z.of_nat k <= 12) by lia. lia.
Qed.

Lemma days_before_year_succ y :
  days_before_year (y + 1) = days_before_year y + days_in_year y.
Proof.
  unfold days_before_year, days_in_year, is_leap_year.
  replace (y + 1 - 1) with y by lia.
  destruct (Z.eqb_spec (y mod 4) 0), (Z.eqb_spec (y mod 100) 0),
           (Z.eqb_spec (y mod 400) 0); cbn [andb orb negb];
    Z.to_euclidean_division_equations; lia.
Qed.

Lemma days_before_year_mono y1 y2 :
  y1 < y2 -> days_before_year y1 + days_in_year y1 <= days_before_year y2.
Proof.
  intros Hlt. rewrite <- days_before_year_succ.
  unfold days_before_year. Z.to_euclidean_division_equations. lia.
Qed.

Lemma december_closes_year y :
  days_before_month y 12 + 31 = days_in_year y.
Proof.
  unfold days_before_month, days_in_year. cbn.
  destruct (is_leap_year y); reflexivity.
Qed.

Lemma day_of_year_bound t :
  valid t ->
  days_before_month (year t) (month t) + day t <= days_in_year (year t).
Proof.
  intros [Hm Hd].
  rewrite <- december_closes_year.
  destruct (Z.eq_dec (month t) 12) as [E|E].
  - rewrite E in *. unfold days_in_month in Hd. cbn in Hd. lia.
  - pose proof (days_before_month_mono (year t) (month t) 12). lia.
Qed.

Lemma day_of_year_pos y m d : 1 <= d -> 0 < days_before_month y m + d.
Proof.
  intros Hd. unfold days_before_month.
  destruct (is_leap_year y);
    repeat match goal with |- context [if ?b then _ else _] => destruct b end;
    lia.
Qed.

(** The day number is strictly increasing along the calendar. *)
Lemma toordinal_lex_lt a b :
  valid a -> valid b -> lex_lt a b -> toordinal a < toordinal b.
Proof.
  intros Va Vb [Hy | [Hy [Hm | [Hm Hd]]]]; unfold toordinal.
  - pose proof (day_of_year_bound a Va).
    pose proof (days_before_year_mono _ _ Hy).
    destruct Vb as [_ Vb].
    pose proof (day_of_year_pos (year b) (month b) (day b)). lia.
  - rewrite Hy. destruct Va as [Ma Da], Vb as [Mb Db]. rewrite Hy in Da.
    pose proof (days_before_month_mono (year b) (month a) (month b)). lia.
  - rewrite Hy, Hm. lia.
Qed.

(** Conversely the order of day numbers is the order of the calendar. *)
Lemma toordinal_le_lex a b :
  valid a -> valid b -> toordinal a <= toordinal b ->
  lex_lt a b \/ (year a = year b /\ month a = month b /\ day a = day b).
Proof.
  intros Va Vb Hle.
  assert (Hc : lex_lt a b \/ lex_lt b a
               \/ (year a = year b /\ month a = month b /\ day a = day b))
    by (unfold lex_lt; lia).
  destruct Hc as [H | [H | H]]; auto.
  pose proof (toordinal_lex_lt b a Vb Va H). lia.
Qed.

End CalendarFacts.

(** ** Timestamps compare as their day numbers *)

Section Comparisons.

Lemma ltb_negb_leb a b : ltb a b = negb (leb b a).
Proof. unfold ltb, leb. apply Z.ltb_antisym. Qed.

Lemma leb_le a b : leb a b = true <-> toordinal a <= toordinal b.
Proof. unfold leb. apply Z.leb_le. Qed.

Lemma ltb_lt a b : ltb a b = true <-> toordinal a < toordinal b.
Proof. unfold ltb. apply Z.ltb_lt. Qed.

Lemma leb_trans a b c : leb a b = true -> leb b c = true -> leb a c = true.
Proof. rewrite !leb_le. lia. Qed.

Lemma valid_month_start t : 1 <= month t <= 12 -> valid (month_start t).
Proof.
  intros Hm. split; cbn; [exact Hm|].
  pose proof (days_in_month_bounds (year t) (month t)). lia.
Qed.

(** A reference date is the last day of its month exactly when its day is the
    length of the month. *)
Lemma es_ultimo_dia_mes_iff fecha :
  eqb fecha (MonthEnd0 fecha) = true
  <-> day fecha = days_in_month (year fecha) (month fecha).
Proof.
  unfold eqb, MonthEnd0, toordinal. cbn. rewrite Z.eqb_eq. lia.
Qed.

End Comparisons.

(** ** Schedule calculator *)

Section Schedule.

Variable c : Credito.

Lemma clip_min_max lower upper x :
  lower <= upper -> clip lower upper x = Z.min (Z.max x lower) upper.
Proof.
  intros H. unfold clip.
  destruct (Z.leb_spec lower x), (Z.leb_spec x upper); lia.
Qed.

Lemma clip_bounds lower upper x :
  lower <= upper -> lower <= clip lower upper x <= upper.
Proof. intros H. rewrite (clip_min_max _ _ _ H). lia. Qed.

Lemma clip_mono lower upper x y :
  lower <= upper -> x <= y -> clip lower upper x <= clip lower upper y.
Proof. intros H Hxy. rewrite !(clip_min_max _ _ _ H). lia. Qed.

Lemma pagos_requeridos_opened fecha :
  leb (fecha_apertura c) fecha = true ->
  pagos_requeridos c fecha
  = Some (clip 0 (plazo c) (meses_transcurridos c fecha)).
Proof. intros H. unfold pagos_requeridos. now rewrite H. Qed.

(** C2. Under the invariant [term >= 0] of the data model, the required
    installments lie between 0 and the term whenever they are defined, and
    they are undefined exactly when the reference date is before the opening
    date.  (The other invariant, [first_payment_date >= open_date], is not
    needed.) *)
Theorem pagos_requeridos_range fecha :
  0 <= plazo c ->
  (forall n, pagos_requeridos c fecha = Some n -> 0 <= n <= plazo c)
  /\ (pagos_requeridos c fecha = None
      <-> ltb fecha (fecha_apertura c) = true).
Proof.
  intros Hplazo. split.
  - intros n. unfold pagos_requeridos.
    destruct (leb (fecha_apertura c) fecha); [|discriminate].
    intros [= <-]. now apply clip_bounds.
  - rewrite ltb_negb_leb. unfold pagos_requeridos.
    destruct (leb (fecha_apertura c) fecha); cbn; split;
      intros; congruence.
Qed.

End Schedule.

(** ** Aging classifier *)

Section Aging.

Lemma ge_k_of_le_0 atraso k :
  FloatOps.le_k atraso 0 = true -> 0 < k -> FloatOps.ge_k atraso k = false.
Proof.
  destruct atraso; cbn; try reflexivity; try discriminate.
  rewrite Z.leb_le, Z.leb_gt. lia.
Qed.

(** C1. For a row of an opened credit with a payment status, the two-branch
    cascade of [logica_paridad] returns the bucket of the single ordered
    threshold table, scanned from the top with the first match winning,
    preceded by the rule that no arrears and a status other than
    ["Atrasado"] give ["Al Corriente"]. *)
Theorem logica_paridad_is_table_scan (row : Fila.t) (fecha : Timestamp)
        (est : string) :
  leb (Fila.fecha_apertura row) fecha = true ->
  Fila.estatus row = Some est ->
  logica_paridad row fecha
  = Ok (aging_bucket_tabla est (Fila.dias_sin_pagar row)
                           (Fila.atraso_pagos row)).
Proof.
  intros Hopen Hest.
  unfold logica_paridad, aging_bucket_tabla.
  rewrite ltb_negb_leb, Hopen, Hest. cbn [negb].
  destruct (FloatOps.le_k (Fila.atraso_pagos row) 0) eqn:Hle; cbn [andb].
  - destruct (negb (String.eqb est "Atrasado")); [reflexivity|].
    cbn [tabla_umbrales primera_coincidencia].
    rewrite !(ge_k_of_le_0 _ _ Hle) by lia.
    rewrite !orb_false_r.
    repeat match goal with
           | |- context [gt_Z ?d ?k] => destruct (gt_Z d k); [reflexivity|]
           end.
    reflexivity.
  - cbn [tabla_umbrales primera_coincidencia].
    repeat match goal with
           | |- context [?a || ?b] => destruct (a || b); [reflexivity|]
           end.
    reflexivity.
Qed.

Lemma logica_paridad_is_table_scan_witness :
  leb (Fila.fecha_apertura Escenarios.fila) Escenarios.fecha = true
  /\ Fila.estatus Escenarios.fila = Some "Atrasado"
  /\ logica_paridad Escenarios.fila Escenarios.fecha = Ok "PAR 120".
Proof.
  split; [reflexivity|]. split; [reflexivity|].
  exact (logica_paridad_is_table_scan Escenarios.fila Escenarios.fecha
                                      "Atrasado" eq_refl eq_refl).
Defined.

(** C3 (as amended). For a row of an opened credit with no days without
    payment, two installments in arrears give ["PAR 30"], and exactly one
    installment in arrears gives ["PAR 1"] whatever the payment status. *)
Theorem logica_paridad_boundary (row : Fila.t) (fecha : Timestamp) :
  leb (Fila.fecha_apertura row) fecha = true ->
  Fila.dias_sin_pagar row = Some 0 ->
  (Fila.atraso_pagos row = Int 2 -> logica_paridad row fecha = Ok "PAR 30")
  /\ (Fila.atraso_pagos row = Int 1 -> logica_paridad row fecha = Ok "PAR 1").
Proof.
  intros Hopen Hdias.
  split; intros Hatr; unfold logica_paridad;
    rewrite ltb_negb_leb, Hopen, Hdias, Hatr; reflexivity.
Qed.

Lemma logica_paridad_boundary_witness :
  leb (Fila.fecha_apertura Escenarios.fila_dos_atrasos) Escenarios.fecha_larga
  = true
  /\ logica_paridad Escenarios.fila_dos_atrasos Escenarios.fecha_larga
     = Ok "PAR 30"
  /\ logica_paridad Escenarios.fila_un_atraso Escenarios.fecha_larga
     = Ok "PAR 1".
Proof.
  split; [reflexivity|]. split.
  - exact (proj1 (logica_paridad_boundary Escenarios.fila_dos_atrasos
                                          Escenarios.fecha_larga
                                          eq_refl eq_refl) eq_refl).
  - exact (proj2 (logica_paridad_boundary Escenarios.fila_un_atraso
                                          Escenarios.fecha_larga
                                          eq_refl eq_refl) eq_refl).
Defined.

End Aging.

Lemma pagos_requeridos_range_witness :
  0 <= plazo Escenarios.credito
  /\ (forall n, pagos_requeridos Escenarios.credito Escenarios.fecha = Some n ->
                0 <= n <= plazo Escenarios.credito)
  /\ (pagos_requeridos Escenarios.credito (mkTimestamp 2022 12 31) = None
      <-> ltb (mkTimestamp 2022 12 31) (fecha_apertura Escenarios.credito)
          = true).
Proof.
  assert (H : 0 <= plazo Escenarios.credito) by (cbn; lia).
  split; [exact H|]. split.
  - exact (proj1 (pagos_requeridos_range Escenarios.credito
                                         Escenarios.fecha H)).
  - exact (proj2 (pagos_requeridos_range Escenarios.credito
                                         (mkTimestamp 2022 12 31) H)).
Defined.


(** ** Worked scenarios *)

Section Scenarios.

Import Escenarios.

(** C3 (counterexample). A credit whose status is ["Al Corriente"], with no
    days without payment and exactly one installment in arrears, is
    classified ["PAR 1"], not ["Al Corriente"]. *)
Lemma one_arrear_current_status_is_par1 :
  leb (fecha_apertura credito_largo) fecha_larga = true
  /\ estatus (monto_requerido credito_largo
                              (pagos_requeridos credito_largo fecha_larga))
             (monto_pagado 1 credito_largo pagos_largos fecha_larga)
     = Some "Al Corriente"
  /\ dias_sin_pagar_en 1 credito_largo pagos_largos fecha_larga = Some 0
  /\ atraso_pagos_en 1 credito_largo pagos_largos fecha_larga = Int 1
  /\ paridad_credito 1 credito_largo pagos_largos fecha_larga = Ok "PAR 1"
  /\ paridad_credito 1 credito_largo pagos_largos fecha_larga
     <> Ok "Al Corriente".
Proof. vm_compute. repeat split; discriminate. Qed.

(** C4 (counterexample). In the scenario the days without payment are not
    135. *)
Lemma scenario_days_are_not_135 :
  dias_sin_pagar_en 1 credito sin_pagos fecha <> Some 135.
Proof. vm_compute. discriminate. Qed.

(** C4 (as amended). In the scenario the pipeline yields 4 required
    installments, a required amount of 4000, a paid amount of 0, the status
    ["Atrasado"], 134 days without payment (from 2023-01-01 to 2023-05-15),
    4 installments in arrears and the bucket ["PAR 120"]. *)
Theorem scenario_empty_ledger :
  pagos_requeridos credito fecha = Some 4
  /\ monto_requerido credito (pagos_requeridos credito fecha) = Some 4000%Q
  /\ monto_pagado 1 credito sin_pagos fecha = Some 0%Q
  /\ estatus (monto_requerido credito (pagos_requeridos credito fecha))
             (monto_pagado 1 credito sin_pagos fecha)
     = Some "Atrasado"
  /\ dias_sin_pagar_en 1 credito sin_pagos fecha = Some 134
  /\ atraso_pagos_en 1 credito sin_pagos fecha = Int 4
  /\ paridad [(1, credito)] sin_pagos fecha = Ok [(1, "PAR 120")].
Proof. vm_compute. repeat split. Qed.

(** C5 (counterexample). Before the credit opens, a payment already in the
    ledger makes the paid amount defined. *)
Lemma paid_amount_defined_before_opening :
  ltb fecha (fecha_apertura credito_futuro) = true
  /\ calificados 1 pago_anticipado fecha <> []
  /\ monto_pagado 1 credito_futuro pago_anticipado fecha = Some 500%Q
  /\ monto_pagado 1 credito_futuro pago_anticipado fecha <> None.
Proof. vm_compute. repeat split; discriminate. Qed.

End Scenarios.

(** ** Ledger aggregator *)

Section Ledger.

Variable i : Z.
Variable c : Credito.
Variable creditos_pagos : CreditosPagos.

Lemma groupby_sum_empty col pagos :
  grupo i pagos = [] -> groupby_sum col pagos i = None.
Proof. unfold groupby_sum. now intros ->. Qed.

Lemma groupby_sum_nonempty col pagos :
  grupo i pagos <> [] ->
  groupby_sum col pagos i = Some (suma (map col (grupo i pagos))).
Proof. unfold groupby_sum. destruct (grupo i pagos); congruence. Qed.

(** C5 (as amended). The paid amount is undefined when the credit has not
    opened and no payment of the credit dated up to the reference date is in
    the ledger; it is the sum of those payments as soon as there is one,
    opened or not; and it is 0 when the credit has opened and there is
    none. *)
Theorem monto_pagado_cases (fecha : Timestamp) :
  (ltb fecha (fecha_apertura c) = true ->
   calificados i creditos_pagos fecha = [] ->
   monto_pagado i c creditos_pagos fecha = None)
  /\ (calificados i creditos_pagos fecha <> [] ->
      monto_pagado i c creditos_pagos fecha
      = Some (suma (map monto_pago (calificados i creditos_pagos fecha))))
  /\ (leb (fecha_apertura c) fecha = true ->
      calificados i creditos_pagos fecha = [] ->
      monto_pagado i c creditos_pagos fecha = Some 0%Q).
Proof.
  unfold calificados, monto_pagado. repeat split.
  - intros Hlt Hnil. now rewrite Hlt, (groupby_sum_empty _ _ Hnil).
  - intros Hne. rewrite (groupby_sum_nonempty _ _ Hne). cbn.
    now rewrite orb_true_r.
  - intros Hle Hnil.
    rewrite ltb_negb_leb, Hle, (groupby_sum_empty _ _ Hnil). reflexivity.
Qed.

End Ledger.

Lemma monto_pagado_cases_witness :
  monto_pagado 1 Escenarios.credito_futuro [] Escenarios.fecha = None
  /\ monto_pagado 1 Escenarios.credito_futuro Escenarios.pago_anticipado
                  Escenarios.fecha = Some 500%Q
  /\ monto_pagado 1 Escenarios.credito [] Escenarios.fecha = Some 0%Q.
Proof.
  destruct (monto_pagado_cases 1 Escenarios.credito_futuro []
                               Escenarios.fecha) as (Hnone & _ & _).
  destruct (monto_pagado_cases 1 Escenarios.credito_futuro
                               Escenarios.pago_anticipado Escenarios.fecha)
    as (_ & Hsum & _).
  destruct (monto_pagado_cases 1 Escenarios.credito [] Escenarios.fecha)
    as (_ & _ & Hzero).
  split; [|split].
  - apply Hnone; reflexivity.
  - rewrite Hsum; [reflexivity | discriminate].
  - apply Hzero; reflexivity.
Defined.

(** ** Monotonicity between two payments *)

Section Monotonicity.

Variable i : Z.
Variable c : Credito.
Variable creditos_pagos : CreditosPagos.

Variables d1 d2 : Timestamp.
Hypothesis d1_le_d2 : leb d1 d2 = true.

Lemma calificados_stable :
  sin_pagos_entre i creditos_pagos d1 d2 ->
  calificados i creditos_pagos d1 = calificados i creditos_pagos d2.
Proof.
  unfold sin_pagos_entre, calificados, grupo, pagos_filtrados.
  induction creditos_pagos as [|p l IH]; intros Hno; [reflexivity|].
  assert (Hl : forall q, In q l -> id_credito q = i ->
                         ltb d1 (fecha_pago q) = true ->
                         leb (fecha_pago q) d2 = true -> False)
    by (intros q Hq; apply Hno; now right).
  specialize (IH Hl). cbn [filter].
  destruct (Z.eqb_spec (id_credito p) i) as [Hid|Hid].
  - destruct (leb (fecha_pago p) d1) eqn:H1.
    + rewrite (leb_trans _ _ _ H1 d1_le_d2). cbn [filter].
      now rewrite IH.
    + destruct (leb (fecha_pago p) d2) eqn:H2.
      * exfalso. apply (Hno p (or_introl eq_refl) Hid); [|exact H2].
        now rewrite ltb_negb_leb, H1.
      * exact IH.
  - destruct (leb (fecha_pago p) d1), (leb (fecha_pago p) d2); cbn [filter];
      try (destruct (Z.eqb_spec (id_credito p) i); [contradiction|]);
      exact IH.
Qed.

Lemma dias_sin_pagar_mono :
  sin_pagos_entre i creditos_pagos d1 d2 ->
  forall x1 x2, dias_sin_pagar_en i c creditos_pagos d1 = Some x1 ->
                dias_sin_pagar_en i c creditos_pagos d2 = Some x2 -> x1 <= x2.
Proof.
  intros Hno x1 x2.
  unfold dias_sin_pagar_en, fecha_ultimo_pago, groupby_last.
  fold (calificados i creditos_pagos d1) (calificados i creditos_pagos d2).
  rewrite (calificados_stable Hno).
  apply leb_le in d1_le_d2.
  unfold dias_sin_pagar, days_between.
  destruct (ultimo (map fecha_pago (calificados i creditos_pagos d2)))
    as [u|]; cbn.
  - intros [= <-] [= <-]. lia.
  - destruct (leb (fecha_apertura c) d1), (leb (fecha_apertura c) d2);
      try discriminate.
    intros [= <-] [= <-]. lia.
Qed.

Hypothesis valid_d1 : valid d1.
Hypothesis valid_d2 : valid d2.

Lemma meses_transcurridos_mono :
  meses_transcurridos c d1 <= meses_transcurridos c d2.
Proof.
  apply leb_le in d1_le_d2.
  destruct (toordinal_le_lex d1 d2 valid_d1 valid_d2 d1_le_d2)
    as [Hlt | (Hy & Hm & Hd)].
  - unfold meses_transcurridos.
    destruct valid_d1 as [Hm1 Hd1], valid_d2 as [Hm2 Hd2].
    destruct Hlt as [Hy | [Hy [Hm | [Hm Hd]]]].
    + repeat match goal with
             | |- context [if ?b then _ else _] => destruct b
             end; lia.
    + repeat match goal with
             | |- context [if ?b then _ else _] => destruct b
             end; lia.
    + rewrite Hy, Hm.
      destruct (negb (eqb d2 (MonthEnd0 d2))
                && (day d2 <? day (fecha_primer_pago c))) eqn:H2;
        [|destruct (negb (eqb d1 (MonthEnd0 d1)) && _); lia].
      apply andb_true_iff in H2. destruct H2 as [_ H2].
      apply Z.ltb_lt in H2.
      assert (H1 : eqb d1 (MonthEnd0 d1) = false).
      { destruct (eqb d1 (MonthEnd0 d1)) eqn:E; [|reflexivity].
        apply es_ultimo_dia_mes_iff in E. rewrite Hy, Hm in E. lia. }
      rewrite H1. cbn [negb andb].
      destruct (Z.ltb_spec (day d1) (day (fecha_primer_pago c))); lia.
  - destruct d1, d2; cbn in Hy, Hm, Hd; subst. lia.
Qed.

Lemma monto_pagado_stable :
  sin_pagos_entre i creditos_pagos d1 d2 ->
  leb (fecha_apertura c) d1 = true ->
  monto_pagado i c creditos_pagos d1 = monto_pagado i c creditos_pagos d2.
Proof.
  intros Hno Hop.
  pose proof (leb_trans _ _ _ Hop d1_le_d2) as Hop2.
  unfold monto_pagado, groupby_sum.
  fold (calificados i creditos_pagos d1) (calificados i creditos_pagos d2).
  rewrite (calificados_stable Hno), !ltb_negb_leb, Hop, Hop2. reflexivity.
Qed.

Lemma le_refl_number (x : Float) : x <> NaN -> FloatOps.le x x.
Proof. destruct x; cbn; auto; lia. Qed.

Hypothesis plazo_no_negativo : 0 <= plazo c.

Lemma atraso_pagos_mono :
  sin_pagos_entre i creditos_pagos d1 d2 ->
  atraso_pagos_en i c creditos_pagos d1 <> NaN ->
  atraso_pagos_en i c creditos_pagos d2 <> NaN ->
  FloatOps.le (atraso_pagos_en i c creditos_pagos d1)
              (atraso_pagos_en i c creditos_pagos d2).
Proof.
  intros Hno. unfold atraso_pagos_en.
  destruct (leb (fecha_apertura c) d1) eqn:Hop.
  - rewrite <- (monto_pagado_stable Hno Hop).
    rewrite (pagos_requeridos_opened c d1 Hop).
    rewrite (pagos_requeridos_opened c d2 (leb_trans _ _ _ Hop d1_le_d2)).
    unfold atraso_pagos.
    destruct (monto_pagado i c creditos_pagos d1) as [pag|]; [|congruence].
    destruct (Qeq_bool (cuota_mensual c) 0).
    + intros Hn _. now apply le_refl_number.
    + intros _ _. cbn.
      pose proof (clip_mono 0 (plazo c) _ _ plazo_no_negativo
                            meses_transcurridos_mono).
      lia.
  - unfold pagos_requeridos at 1. rewrite Hop. cbn. congruence.
Qed.

(** C6. For a credit whose term is not negative (the invariant of the data
    model), between two reference dates d1 <= d2 with no payment of the
    credit dated in (d1, d2], the days without payment and the installments
    in arrears at d2 are at least their values at d1, whenever both are
    defined. *)
Theorem metrics_monotone_until_next_payment :
  sin_pagos_entre i creditos_pagos d1 d2 ->
  (forall x1 x2, dias_sin_pagar_en i c creditos_pagos d1 = Some x1 ->
                 dias_sin_pagar_en i c creditos_pagos d2 = Some x2 -> x1 <= x2)
  /\ (atraso_pagos_en i c creditos_pagos d1 <> NaN ->
      atraso_pagos_en i c creditos_pagos d2 <> NaN ->
      FloatOps.le (atraso_pagos_en i c creditos_pagos d1)
                  (atraso_pagos_en i c creditos_pagos d2)).
Proof.
  intros Hno. split.
  - now apply dias_sin_pagar_mono.
  - now apply atraso_pagos_mono.
Qed.

End Monotonicity.

Lemma metrics_monotone_until_next_payment_witness :
  leb (mkTimestamp 2023 4 1) Escenarios.fecha = true
  /\ 0 <= plazo Escenarios.credito
  /\ sin_pagos_entre 1 Escenarios.pagos_en_orden (mkTimestamp 2023 4 1)
                     Escenarios.fecha
  /\ (forall x1 x2,
         dias_sin_pagar_en 1 Escenarios.credito Escenarios.pagos_en_orden
                           (mkTimestamp 2023 4 1) = Some x1 ->
         dias_sin_pagar_en 1 Escenarios.credito Escenarios.pagos_en_orden
                           Escenarios.fecha = Some x2 ->
         x1 <= x2)
  /\ FloatOps.le
       (atraso_pagos_en 1 Escenarios.credito Escenarios.pagos_en_orden
                        (mkTimestamp 2023 4 1))
       (atraso_pagos_en 1 Escenarios.credito Escenarios.pagos_en_orden
                        Escenarios.fecha).
Proof.
  assert (Hle : leb (mkTimestamp 2023 4 1) Escenarios.fecha = true)
    by reflexivity.
  assert (V1 : valid (mkTimestamp 2023 4 1)) by (split; cbn; lia).
  assert (V2 : valid Escenarios.fecha) by (split; cbn; lia).
  assert (Hp : 0 <= plazo Escenarios.credito) by (cbn; lia).
  assert (Hno : sin_pagos_entre 1 Escenarios.pagos_en_orden
                                (mkTimestamp 2023 4 1) Escenarios.fecha).
  { intros p [<-|[<-|[]]] _ H; vm_compute in H; discriminate. }
  split; [exact Hle|]. split; [exact Hp|]. split; [exact Hno|].
  pose proof (metrics_monotone_until_next_payment
                1 Escenarios.credito Escenarios.pagos_en_orden
                (mkTimestamp 2023 4 1) Escenarios.fecha Hle V1 V2 Hp Hno)
    as [Hd Ha].
  split; [exact Hd|].
  apply Ha; vm_compute; discriminate.
Defined.

(** ** Portfolio window filter *)

Section Window.

Variable c : Credito.
Variable fecha : Timestamp.
Hypothesis month_in_range : 1 <= month fecha <= 12.

Let fecha_actual := month_start fecha.
Let fecha_inicial := next_month_start (fecha_apertura c).

Lemma considerado_iff :
  considerado c fecha = true
  <-> leb fecha_inicial fecha_actual = true
      /\ ltb fecha_actual (fecha_final c) = true.
Proof. unfold considerado. apply andb_true_iff. Qed.

(** The first day of a month is after every date of an earlier month. *)
Lemma month_start_after (d : Timestamp) :
  valid d ->
  year d < year fecha \/ (year d = year fecha /\ month d < month fecha) ->
  ltb fecha_actual d = false.
Proof.
  intros Vd Hlater.
  rewrite ltb_negb_leb, negb_false_iff, leb_le.
  apply Z.lt_le_incl, toordinal_lex_lt;
    [exact Vd | now apply valid_month_start |].
  unfold lex_lt, fecha_actual, month_start. cbn. lia.
Qed.

(** Within its own month, the first day is before the date unless the date
    is that first day. *)
Lemma month_start_same_month (d : Timestamp) :
  year fecha = year d -> month fecha = month d ->
  ltb fecha_actual d = (1 <? day d).
Proof.
  intros Hy Hm. unfold ltb, fecha_actual, month_start, toordinal. cbn.
  rewrite Hy, Hm.
  destruct (Z.ltb_spec 1 (day d)); [apply Z.ltb_lt | apply Z.ltb_ge]; lia.
Qed.

(** C7 (as amended). A credit is considered in the month of the reference
    date exactly when the start of the month after its opening is not after
    the start of that month, and that month start is strictly before the
    closing date (2200-12-31 when there is none).  So a credit with a closing
    date is left out of every month after the month of its closing date; in
    the month of its closing date it is left out when the closing date is the
    first day of that month, and otherwise the closing date does not exclude
    it. *)
Theorem considerado_window :
  (considerado c fecha = true
   <-> leb fecha_inicial fecha_actual = true
       /\ ltb fecha_actual (fecha_final c) = true)
  /\ (forall cierre, fecha_cierre c = Some cierre -> valid cierre ->
        (year cierre < year fecha
         \/ (year cierre = year fecha /\ month cierre < month fecha) ->
         considerado c fecha = false)
        /\ (year fecha = year cierre -> month fecha = month cierre ->
            day cierre = 1 -> considerado c fecha = false)
        /\ (year fecha = year cierre -> month fecha = month cierre ->
            1 < day cierre ->
            considerado c fecha = leb fecha_inicial fecha_actual)).
Proof.
  split; [exact considerado_iff|].
  intros cierre Hc Vc. unfold considerado, fecha_final. rewrite Hc.
  fold fecha_actual fecha_inicial. repeat split.
  - intros Hlater. rewrite (month_start_after cierre Vc Hlater).
    apply andb_false_r.
  - intros Hy Hm Hd. rewrite (month_start_same_month cierre Hy Hm), Hd.
    apply andb_false_r.
  - intros Hy Hm Hd. rewrite (month_start_same_month cierre Hy Hm).
    apply Z.ltb_lt in Hd. rewrite Hd. apply andb_true_r.
Qed.

Lemma before_fecha_maxima_iff :
  ltb fecha_actual fecha_maxima = true <-> year fecha <= 2200.
Proof.
  assert (Vmax : valid fecha_maxima) by (split; cbn; lia).
  pose proof (valid_month_start fecha month_in_range) as Vact.
  fold fecha_actual in Vact.
  split.
  - intros Hlt. destruct (Z.le_gt_cases (year fecha) 2200) as [|Hgt]; [easy|].
    rewrite month_start_after in Hlt; [discriminate | exact Vmax |].
    cbn. lia.
  - intros Hy. apply ltb_lt, toordinal_lex_lt; [exact Vact | exact Vmax |].
    unfold lex_lt, fecha_actual. cbn. lia.
Qed.

(** C9. For a credit with no closing date the closing date is taken to be
    2200-12-31: the credit is considered in every reporting month that starts
    before that day (the months up to December 2200) once its window has
    started, and in no reporting month that starts on or after it (from
    January 2201 on), although it was never closed. *)
Theorem considerado_never_closed :
  fecha_cierre c = None ->
  considerado c fecha
  = leb fecha_inicial fecha_actual && ltb fecha_actual (mkTimestamp 2200 12 31)
  /\ (ltb fecha_actual (mkTimestamp 2200 12 31) = true ->
      considerado c fecha = leb fecha_inicial fecha_actual)
  /\ (leb (mkTimestamp 2200 12 31) fecha_actual = true ->
      considerado c fecha = false)
  /\ (ltb fecha_actual (mkTimestamp 2200 12 31) = true <-> year fecha <= 2200)
  /\ (leb (mkTimestamp 2200 12 31) fecha_actual = true <-> 2201 <= year fecha).
Proof.
  intros Hc.
  assert (E : considerado c fecha
              = leb fecha_inicial fecha_actual
                && ltb fecha_actual (mkTimestamp 2200 12 31)).
  { unfold considerado, fecha_final. now rewrite Hc. }
  split; [exact E|]. rewrite E. repeat split.
  - intros ->. apply andb_true_r.
  - intros H. rewrite ltb_negb_leb, H. apply andb_false_r.
  - apply before_fecha_maxima_iff.
  - apply before_fecha_maxima_iff.
  - intros H. pose proof before_fecha_maxima_iff as [Hb _].
    destruct (Z.le_gt_cases (year fecha) 2200) as [Hy|]; [|lia].
    apply (proj2 before_fecha_maxima_iff) in Hy.
    unfold fecha_maxima in Hy. rewrite ltb_negb_leb, H in Hy. discriminate.
  - intros Hy.
    destruct (leb (mkTimestamp 2200 12 31) fecha_actual) eqn:H; [reflexivity|].
    assert (Hlt : ltb fecha_actual fecha_maxima = true)
      by (unfold fecha_maxima; now rewrite ltb_negb_leb, H).
    apply before_fecha_maxima_iff in Hlt. lia.
Qed.

End Window.

Section WindowScenarios.

Import Escenarios.

(** C7 (counterexample). A credit closed on 2023-03-15 is still considered in
    March 2023, the month its closing date falls in; and a credit that was
    never closed is not considered in January 2201, although its window has
    started. *)
Lemma closed_mid_month_still_considered :
  fecha_cierre cerrado_dia_15 = Some (mkTimestamp 2023 3 15)
  /\ considerado cerrado_dia_15 (mkTimestamp 2023 3 20) = true
  /\ considerar [(1, cerrado_dia_15)] (mkTimestamp 2023 3 20)
     = [(1, cerrado_dia_15)]
  /\ fecha_cierre sin_cierre = None
  /\ leb (next_month_start (fecha_apertura sin_cierre))
         (month_start (mkTimestamp 2201 1 15)) = true
  /\ considerar [(1, sin_cierre)] (mkTimestamp 2201 1 15) = [].
Proof. vm_compute. repeat split. Qed.

Lemma considerado_window_witness :
  considerado cerrado_dia_15 (mkTimestamp 2023 4 20) = false
  /\ considerado cerrado_dia_1 (mkTimestamp 2023 3 20) = false
  /\ considerado cerrado_dia_15 (mkTimestamp 2023 3 20) = true.
Proof.
  assert (Hm3 : 1 <= month (mkTimestamp 2023 3 20) <= 12) by (cbn; lia).
  assert (Hm4 : 1 <= month (mkTimestamp 2023 4 20) <= 12) by (cbn; lia).
  assert (V15 : valid (mkTimestamp 2023 3 15)) by (split; cbn; lia).
  assert (V1 : valid (mkTimestamp 2023 3 1)) by (split; cbn; lia).
  destruct (proj2 (considerado_window cerrado_dia_15 _ Hm4)
                  (mkTimestamp 2023 3 15) eq_refl V15) as (Hlater & _ & _).
  destruct (proj2 (considerado_window cerrado_dia_1 _ Hm3)
                  (mkTimestamp 2023 3 1) eq_refl V1) as (_ & Hfirst & _).
  destruct (proj2 (considerado_window cerrado_dia_15 _ Hm3)
                  (mkTimestamp 2023 3 15) eq_refl V15) as (_ & _ & Hmid).
  split; [|split].
  - apply Hlater. cbn. lia.
  - apply Hfirst; reflexivity.
  - rewrite Hmid; [reflexivity .. | cbn; lia].
Defined.

Lemma considerado_never_closed_witness :
  fecha_cierre sin_cierre = None
  /\ considerado sin_cierre (mkTimestamp 2200 12 15) = true
  /\ considerado sin_cierre (mkTimestamp 2201 1 15) = false.
Proof.
  assert (Hm12 : 1 <= month (mkTimestamp 2200 12 15) <= 12) by (cbn; lia).
  assert (Hm1 : 1 <= month (mkTimestamp 2201 1 15) <= 12) by (cbn; lia).
  destruct (considerado_never_closed sin_cierre _ Hm12 eq_refl)
    as (_ & Hbefore & _).
  destruct (considerado_never_closed sin_cierre _ Hm1 eq_refl)
    as (_ & _ & Hafter & _).
  split; [reflexivity|]. split.
  - rewrite Hbefore; reflexivity.
  - apply Hafter. reflexivity.
Defined.

End WindowScenarios.

(** ** The entry points never fail *)

Section Totality.

Lemma Qltb_false_Qleb x y : Qltb x y = false -> Qleb y x = true.
Proof.
  unfold Qltb, Qleb. rewrite <- (Qcompare_antisym x y).
  destruct (x ?= y)%Q; cbn; congruence.
Qed.

(** With both amounts defined one of the three comparisons of [estatus]
    holds. *)
Lemma estatus_defined (monto_req monto_pag : Q) :
  estatus (Some monto_req) (Some monto_pag) <> None.
Proof.
  unfold estatus, lt_Q, le_Q, gt_Q, test2. cbn [option_map].
  destruct (Qltb monto_req monto_pag) eqn:Hgt; [discriminate|].
  destruct (Qltb monto_pag (monto_req * (98 # 100))) eqn:Hlt.
  - destruct (_ && _); discriminate.
  - rewrite (Qltb_false_Qleb _ _ Hlt), (Qltb_false_Qleb _ _ Hgt).
    discriminate.
Qed.

(** Once the credit has opened both amounts are defined, and so is the
    status. *)
Lemma estatus_defined_once_opened i c creditos_pagos fecha :
  leb (fecha_apertura c) fecha = true ->
  estatus (monto_requerido c (pagos_requeridos c fecha))
          (monto_pagado i c creditos_pagos fecha) <> None.
Proof.
  intros Hop. rewrite (pagos_requeridos_opened c fecha Hop).
  unfold monto_pagado. rewrite ltb_negb_leb, Hop.
  cbn [negb orb monto_requerido option_map].
  destruct (groupby_sum monto_pago (pagos_filtrados creditos_pagos fecha) i);
    cbn [notnull]; apply estatus_defined.
Qed.

Lemma atraso_pagos_number c pagos_req monto_pag :
  atraso_pagos c pagos_req monto_pag <> NaN ->
  exists req pag, pagos_req = Some req /\ monto_pag = Some pag.
Proof.
  destruct pagos_req as [req|], monto_pag as [pag|]; cbn; try congruence.
  intros _. now exists req, pag.
Qed.

Lemma logica_paridad_returns row fecha :
  Fila.estatus row <> None \/ FloatOps.le_k (Fila.atraso_pagos row) 0 = false ->
  exists bucket, logica_paridad row fecha = Ok bucket.
Proof.
  intros H. unfold logica_paridad.
  destruct (ltb fecha (Fila.fecha_apertura row)); [eauto|].
  destruct (FloatOps.le_k (Fila.atraso_pagos row) 0).
  - destruct H as [H|H]; [|discriminate].
    destruct (Fila.estatus row); [|contradiction].
    repeat match goal with
           | |- context [if ?b then _ else _] => destruct b; [eauto|]
           end.
    eauto.
  - repeat match goal with
           | |- context [if ?b then _ else _] => destruct b; [eauto|]
           end.
    eauto.
Qed.

Lemma paridad_credito_returns i c creditos_pagos fecha :
  exists bucket, paridad_credito i c creditos_pagos fecha = Ok bucket.
Proof.
  unfold paridad_credito, tipo_paridad.
  apply logica_paridad_returns. cbn.
  destruct (FloatOps.le_k
              (atraso_pagos c (pagos_requeridos c fecha)
                            (monto_pagado i c creditos_pagos fecha)) 0)
           eqn:Hle; [left | now right].
  destruct (atraso_pagos_number c (pagos_requeridos c fecha)
                                (monto_pagado i c creditos_pagos fecha))
    as (req & pag & -> & ->).
  - intros E. rewrite E in Hle. discriminate.
  - apply estatus_defined.
Qed.

Lemma mapM_ext_in {A B} (f g : A -> resultado B) (l : list A) :
  (forall a, In a l -> f a = g a) -> mapM f l = mapM g l.
Proof.
  induction l as [|a l IH]; intros H; cbn; [reflexivity|].
  rewrite (H a (or_introl eq_refl)), IH; [reflexivity|].
  intros; apply H; now right.
Qed.

Lemma paridad_returns creditos creditos_pagos fecha :
  exists buckets,
    paridad creditos creditos_pagos fecha = Ok buckets
    /\ map fst buckets = map fst creditos.
Proof.
  unfold paridad. induction creditos as [|[i c] l IH]; cbn.
  - now exists [].
  - destruct (paridad_credito_returns i c creditos_pagos fecha) as [b ->].
    destruct IH as (bs & -> & Hbs). cbn.
    exists ((i, b) :: bs). cbn. now rewrite Hbs.
Qed.

End Totality.

(** ** Payments of unknown credits *)

Section Orphans.

Variable creditos : Creditos.
Variables antes despues : CreditosPagos.
Variable huerfano : Pago.
Hypothesis es_huerfano : ~ In (id_credito huerfano) (map fst creditos).

Lemma calificados_orphan i c fecha :
  In (i, c) creditos ->
  calificados i (antes ++ huerfano :: despues) fecha
  = calificados i (antes ++ despues) fecha.
Proof.
  intros Hin. unfold calificados, grupo, pagos_filtrados.
  rewrite !filter_app. cbn [filter].
  destruct (leb (fecha_pago huerfano) fecha); [|reflexivity].
  cbn [filter].
  destruct (Z.eqb_spec (id_credito huerfano) i) as [E|]; [|reflexivity].
  exfalso. apply es_huerfano. rewrite E.
  change i with (fst (i, c)). now apply in_map.
Qed.

Lemma paridad_credito_orphan i c fecha :
  In (i, c) creditos ->
  paridad_credito i c (antes ++ huerfano :: despues) fecha
  = paridad_credito i c (antes ++ despues) fecha.
Proof.
  intros Hin.
  unfold paridad_credito, monto_pagado, fecha_ultimo_pago, groupby_sum,
    groupby_last.
  fold (calificados i (antes ++ huerfano :: despues) fecha).
  fold (calificados i (antes ++ despues) fecha).
  now rewrite (calificados_orphan i c fecha Hin).
Qed.

Lemma saldo_credito_orphan i c fecha :
  In (i, c) creditos ->
  saldo_credito i c (antes ++ huerfano :: despues) fecha
  = saldo_credito i c (antes ++ despues) fecha.
Proof.
  intros Hin. unfold saldo_credito, groupby_last.
  fold (calificados i (antes ++ huerfano :: despues) fecha).
  fold (calificados i (antes ++ despues) fecha).
  now rewrite (calificados_orphan i c fecha Hin).
Qed.

Lemma paridad_orphan fecha :
  paridad creditos (antes ++ huerfano :: despues) fecha
  = paridad creditos (antes ++ despues) fecha.
Proof.
  unfold paridad. apply mapM_ext_in. intros [i c] Hin. cbn.
  now rewrite (paridad_credito_orphan i c fecha Hin).
Qed.

Lemma saldo_orphan fecha :
  saldo creditos (antes ++ huerfano :: despues) fecha
  = saldo creditos (antes ++ despues) fecha.
Proof.
  unfold saldo. apply map_ext_in. intros [i c] Hin. cbn.
  now rewrite (saldo_credito_orphan i c fecha Hin).
Qed.

End Orphans.

(** ** Which ledger row is the last payment *)

Section LastPayment.

Variable i : Z.
Variable fecha : Timestamp.

Lemma calificados_filter pagos :
  calificados i pagos fecha = filter (califica i fecha) pagos.
Proof.
  unfold calificados, grupo, pagos_filtrados, califica.
  induction pagos as [|p l IH]; cbn [filter]; [reflexivity|].
  destruct (leb (fecha_pago p) fecha); cbn [filter andb];
    [destruct (id_credito p =? i)|]; now rewrite IH.
Qed.

Lemma calificados_of_grupo pagos :
  calificados i pagos fecha
  = filter (fun p => leb (fecha_pago p) fecha) (grupo i pagos).
Proof.
  rewrite calificados_filter. unfold grupo, califica.
  induction pagos as [|p l IH]; cbn [filter]; [reflexivity|].
  destruct (id_credito p =? i); cbn [filter];
    [destruct (leb (fecha_pago p) fecha)|rewrite andb_false_r];
    cbn [andb]; now rewrite IH.
Qed.

Lemma filter_none {A} (f : A -> bool) (l : list A) :
  (forall a, In a l -> f a = false) -> filter f l = [].
Proof.
  induction l as [|a l IH]; intros H; cbn; [reflexivity|].
  rewrite (H a (or_introl eq_refl)). apply IH. intros; apply H; now right.
Qed.

Lemma ultimo_snoc {A} (l : list A) (a : A) : ultimo (l ++ [a]) = Some a.
Proof.
  induction l as [|b l IH]; [reflexivity|].
  cbn [app ultimo]. rewrite IH. now destruct (l ++ [a]) eqn:E;
    [destruct l; discriminate|].
Qed.

Lemma ultimo_map {A B} (f : A -> B) (l : list A) :
  ultimo (map f l) = option_map f (ultimo l).
Proof.
  induction l as [|a [|b l] IH]; try reflexivity.
  exact IH.
Qed.

Lemma ultimo_In {A} (l : list A) (a : A) : ultimo l = Some a -> In a l.
Proof.
  induction l as [|b [|b' l] IH]; cbn; try discriminate.
  - intros [= ->]. now left.
  - intros H. right. now apply IH.
Qed.

(** The last row that counts decides, wherever its date stands among the
    others. *)
Lemma calificados_positional antes p despues :
  califica i fecha p = true ->
  (forall q, In q despues -> califica i fecha q = false) ->
  calificados i (antes ++ p :: despues) fecha
  = calificados i antes fecha ++ [p].
Proof.
  intros Hp Hrest. rewrite !calificados_filter, filter_app. cbn [filter].
  now rewrite Hp, (filter_none _ _ Hrest).
Qed.

Lemma StronglySorted_filter {A} (R : A -> A -> Prop) (f : A -> bool) l :
  StronglySorted R l -> StronglySorted R (filter f l).
Proof.
  induction 1 as [|a l Hl IH Hall]; cbn; [constructor|].
  destruct (f a); [|exact IH].
  constructor; [exact IH|].
  rewrite Forall_forall in *. intros x Hx.
  apply filter_In in Hx. now apply Hall.
Qed.

Lemma ultimo_is_greatest {A} (R : A -> A -> Prop) l u :
  (forall a, R a a) -> StronglySorted R l -> ultimo l = Some u ->
  forall a, In a l -> R a u.
Proof.
  intros Hrefl Hs. revert u.
  induction Hs as [|b l Hl IH Hall]; intros u Hu a Ha; [contradiction|].
  destruct l as [|b' l'].
  - cbn in Hu. injection Hu as <-. destruct Ha as [<-|[]]. apply Hrefl.
  - change (ultimo (b' :: l') = Some u) in Hu.
    destruct Ha as [<-|Ha]; [|now apply IH].
    rewrite Forall_forall in Hall. apply Hall. now apply ultimo_In.
Qed.

Lemma no_posterior_sorted pagos :
  Sorted no_posterior (grupo i pagos) ->
  StronglySorted no_posterior (calificados i pagos fecha).
Proof.
  intros Hs. rewrite calificados_of_grupo.
  apply StronglySorted_filter, Sorted_StronglySorted; [|exact Hs].
  intros a b c. unfold no_posterior. apply leb_trans.
Qed.

(** In a ledger where the rows of the credit are in ascending date order, the
    last payment date is the latest date among the rows that count. *)
Lemma fecha_ultimo_pago_latest pagos u :
  Sorted no_posterior (grupo i pagos) ->
  fecha_ultimo_pago i pagos fecha = Some u ->
  (exists p, In p pagos /\ califica i fecha p = true /\ fecha_pago p = u)
  /\ (forall q, In q pagos -> califica i fecha q = true ->
                leb (fecha_pago q) u = true).
Proof.
  intros Hs. unfold fecha_ultimo_pago, groupby_last.
  fold (calificados i pagos fecha). rewrite ultimo_map.
  destruct (ultimo (calificados i pagos fecha)) as [p|] eqn:Hu;
    [|discriminate].
  cbn. intros [= <-]. split.
  - exists p. apply ultimo_In in Hu.
    rewrite calificados_filter in Hu. apply filter_In in Hu. tauto.
  - intros q Hq Hcal.
    apply (ultimo_is_greatest no_posterior (calificados i pagos fecha) p);
      [intros a; apply Z.leb_refl | now apply no_posterior_sorted
       | exact Hu |].
    rewrite calificados_filter. now apply filter_In.
Qed.

End LastPayment.

(** ** The paid amount does not depend on the order of the ledger *)

Section LedgerOrder.

Lemma Qplus_swap (a x y : Q) : (a + x + y = a + y + x)%Q.
Proof.
  destruct a as [an ad], x as [xn xd], y as [yn yd].
  unfold Qplus. cbn [Qnum Qden]. f_equal.
  - rewrite !Pos2Z.inj_mul. ring.
  - lia.
Qed.

Lemma fold_left_Qplus_perm (l l' : list Q) :
  Permutation l l' ->
  forall a, fold_left Qplus l a = fold_left Qplus l' a.
Proof.
  induction 1 as [|x l l' _ IH|x y l|l l' l'' _ IH1 _ IH2]; intros a; cbn.
  - reflexivity.
  - apply IH.
  - now rewrite Qplus_swap.
  - now rewrite IH1.
Qed.

Lemma filter_perm {A} (f : A -> bool) (l l' : list A) :
  Permutation l l' -> Permutation (filter f l) (filter f l').
Proof.
  induction 1 as [|x l l' _ IH|x y l|l l' l'' _ IH1 _ IH2]; cbn.
  - constructor.
  - destruct (f x); [now constructor | exact IH].
  - destruct (f x), (f y); try reflexivity. constructor.
  - now transitivity (filter f l').
Qed.

Lemma monto_pagado_perm i c pagos pagos' fecha :
  Permutation pagos pagos' ->
  monto_pagado i c pagos fecha = monto_pagado i c pagos' fecha.
Proof.
  intros Hp. unfold monto_pagado, groupby_sum.
  fold (calificados i pagos fecha) (calificados i pagos' fecha).
  rewrite !calificados_filter.
  pose proof (filter_perm (califica i fecha) _ _ Hp) as Hf.
  assert (Hs : suma (map monto_pago (filter (califica i fecha) pagos))
               = suma (map monto_pago (filter (califica i fecha) pagos')))
    by (apply fold_left_Qplus_perm; now apply Permutation_map).
  destruct (filter (califica i fecha) pagos) as [|p l] eqn:E.
  - apply Permutation_nil in Hf. now rewrite Hf.
  - destruct (filter (califica i fecha) pagos') as [|p' l'] eqn:E'.
    + symmetry in Hf. apply Permutation_nil in Hf. discriminate.
    + now rewrite Hs.
Qed.

End LedgerOrder.

(** ** Faulty inputs *)

Section Validation.

Import Escenarios.

(** C8 (counterexample). A table with a credit of negative term closed
    before it opened, a credit of negative installment and a payment of a
    credit that is not in the table goes through every entry point without any
    failure: buckets and balances are returned, the payment is ignored and
    [considerar] silently leaves the first credit out. *)
Lemma faulty_input_is_processed :
  entrada_con_falla creditos_defectuosos pagos_huerfanos = true
  /\ existsb (pago_huerfano creditos_defectuosos) pagos_huerfanos = true
  /\ forallb (fun ic : Z * Credito => credito_invalido (snd ic))
             creditos_defectuosos = true
  /\ paridad creditos_defectuosos pagos_huerfanos fecha
     = Ok [(1, "Al Corriente"); (2, "PAR 120")]
  /\ falla (paridad creditos_defectuosos pagos_huerfanos fecha) = false
  /\ falla (paridad_inicial creditos_defectuosos pagos_huerfanos fecha)
     = false
  /\ saldo creditos_defectuosos pagos_huerfanos fecha
     = [(1, 12000%Q); (2, 12000%Q)]
  /\ saldo_inicial_periodo creditos_defectuosos pagos_huerfanos fecha
     = [(1, 12000%Q); (2, 12000%Q)]
  /\ considerar creditos_defectuosos fecha = [(2, credito_cuota_negativa)].
Proof. vm_compute. repeat split. Qed.

Lemma pago_huerfano_not_In (creditos : Creditos) (p : Pago) :
  pago_huerfano creditos p = true ->
  ~ In (id_credito p) (map fst creditos).
Proof.
  unfold pago_huerfano. rewrite negb_true_iff. intros Hno Hin.
  apply in_map_iff in Hin. destruct Hin as (ic & Hid & Hin).
  assert (H : existsb (fun ic0 : Z * Credito => fst ic0 =? id_credito p)
                      creditos = true)
    by (apply existsb_exists; exists ic; split; [exact Hin|];
        now apply Z.eqb_eq).
  congruence.
Qed.

(** A valid date is before the first day of the next month. *)
Lemma before_next_month_start (t : Timestamp) :
  valid t -> ltb t (next_month_start t) = true.
Proof.
  intros V. apply ltb_lt, toordinal_lex_lt; [exact V | |].
  - destruct V as [Hm _]. unfold next_month_start.
    destruct (Z.eqb_spec (month t) 12); split; cbn; try lia;
      match goal with
      | |- context [days_in_month ?y ?m] =>
          pose proof (days_in_month_bounds y m); lia
      end.
  - unfold lex_lt, next_month_start.
    destruct (Z.eqb_spec (month t) 12); cbn; lia.
Qed.

(** A credit closed before it opened is in no reporting month. *)
Lemma closed_before_opening_never_considered (c : Credito)
      (cierre fecha : Timestamp) :
  fecha_cierre c = Some cierre ->
  valid (fecha_apertura c) ->
  ltb cierre (fecha_apertura c) = true ->
  considerado c fecha = false.
Proof.
  intros Hc V Hlt. unfold considerado, fecha_final. rewrite Hc.
  pose proof (before_next_month_start (fecha_apertura c) V) as Hn.
  apply ltb_lt in Hlt. apply ltb_lt in Hn.
  destruct (leb (next_month_start (fecha_apertura c)) (month_start fecha))
           eqn:Hs; [|reflexivity].
  apply leb_le in Hs. cbn [andb]. apply Z.ltb_ge. lia.
Qed.

(** C8 (as amended). For tables that have every column, typed as in the data
    model, the other faults of an input are not signaled: when a payment is
    of a credit that is not in the credit table, or a credit has a negative
    term, an installment that is not positive or a closing date before its
    opening date, [paridad] and [paridad_inicial] still return a bucket for
    every credit; a payment of a credit that is not in the credit table is
    ignored by [paridad], [paridad_inicial], [saldo] and [saldo_inicial]; and
    a credit closed before its opening date is left out by [considerar] at
    every reference date. *)
Theorem entry_points_do_not_validate (creditos : Creditos)
        (creditos_pagos : CreditosPagos) (fecha : Timestamp) :
  entrada_con_falla creditos creditos_pagos = true ->
  (exists buckets,
      paridad creditos creditos_pagos fecha = Ok buckets
      /\ map fst buckets = map fst creditos)
  /\ (exists buckets,
         paridad_inicial creditos creditos_pagos fecha = Ok buckets
         /\ map fst buckets = map fst creditos)
  /\ (forall antes huerfano despues,
         creditos_pagos = antes ++ huerfano :: despues ->
         pago_huerfano creditos huerfano = true ->
         paridad creditos creditos_pagos fecha
         = paridad creditos (antes ++ despues) fecha
         /\ paridad_inicial creditos creditos_pagos fecha
            = paridad_inicial creditos (antes ++ despues) fecha
         /\ saldo creditos creditos_pagos fecha
            = saldo creditos (antes ++ despues) fecha
         /\ saldo_inicial_periodo creditos creditos_pagos fecha
            = saldo_inicial_periodo creditos (antes ++ despues) fecha)
  /\ (forall i c cierre,
         In (i, c) creditos ->
         fecha_cierre c = Some cierre ->
         valid (fecha_apertura c) ->
         ltb cierre (fecha_apertura c) = true ->
         ~ In (i, c) (considerar creditos fecha)).
Proof.
  intros _.
  split; [apply paridad_returns|].
  split; [apply paridad_returns|].
  split.
  - intros antes huerfano despues -> Hh.
    apply pago_huerfano_not_In in Hh.
    unfold paridad_inicial, saldo_inicial_periodo.
    repeat split; first [now apply paridad_orphan | now apply saldo_orphan].
  - intros i c cierre _ Hc V Hlt Hin.
    unfold considerar in Hin. apply filter_In in Hin.
    destruct Hin as [_ Hin]. cbn [snd] in Hin.
    rewrite (closed_before_opening_never_considered c cierre fecha Hc V Hlt)
      in Hin.
    discriminate.
Qed.

Lemma entry_points_do_not_validate_witness :
  entrada_con_falla creditos_defectuosos pagos_huerfanos = true
  /\ falla (paridad creditos_defectuosos pagos_huerfanos fecha) = false
  /\ paridad creditos_defectuosos pagos_huerfanos fecha
     = paridad creditos_defectuosos [] fecha
  /\ saldo creditos_defectuosos pagos_huerfanos fecha
     = saldo creditos_defectuosos [] fecha
  /\ ~ In (1, credito_defectuoso) (considerar creditos_defectuosos fecha).
Proof.
  assert (Hf : entrada_con_falla creditos_defectuosos pagos_huerfanos = true)
    by reflexivity.
  destruct (entry_points_do_not_validate
              creditos_defectuosos pagos_huerfanos fecha Hf)
    as ((buckets & Hok & _) & _ & Horphan & Hclosed).
  destruct (Horphan [] (mkPago 99 (mkTimestamp 2023 3 1) 1000 0) []
                    eq_refl eq_refl) as (Hp & _ & Hs & _).
  split; [exact Hf|]. split; [now rewrite Hok|].
  split; [exact Hp|]. split; [exact Hs|].
  apply (Hclosed 1 credito_defectuoso (mkTimestamp 2022 12 1));
    [now left | reflexivity | split; cbn; lia | reflexivity].
Defined.

End Validation.

(** ** The last payment is the last row *)

Section PositionalLast.

Import Escenarios.

(** C10. The last payment date and the balance come from the last ledger
    row, in table order, among the rows of the credit dated up to the
    reference date, whatever the dates of the rows before it.  That row
    carries the latest of those dates when the rows of the credit are in
    ascending date order.  Permuting the ledger never changes the paid amount,
    and can change the last payment date, the days without payment and the
    balance. *)
Theorem last_payment_is_last_row :
  (forall i c fecha antes p despues,
      califica i fecha p = true ->
      (forall q, In q despues -> califica i fecha q = false) ->
      fecha_ultimo_pago i (antes ++ p :: despues) fecha = Some (fecha_pago p)
      /\ saldo_credito i c (antes ++ p :: despues) fecha = saldo_posterior p)
  /\ (forall i fecha pagos u,
         Sorted no_posterior (grupo i pagos) ->
         fecha_ultimo_pago i pagos fecha = Some u ->
         (exists p, In p pagos /\ califica i fecha p = true /\ fecha_pago p = u)
         /\ (forall q, In q pagos -> califica i fecha q = true ->
                       leb (fecha_pago q) u = true))
  /\ (forall i c fecha pagos pagos',
         Permutation pagos pagos' ->
         monto_pagado i c pagos fecha = monto_pagado i c pagos' fecha)
  /\ (Permutation pagos_en_orden pagos_permutados
      /\ fecha_ultimo_pago 1 pagos_en_orden fecha = Some (mkTimestamp 2023 3 1)
      /\ fecha_ultimo_pago 1 pagos_permutados fecha
         = Some (mkTimestamp 2023 2 1)
      /\ dias_sin_pagar_en 1 credito pagos_en_orden fecha = Some 45
      /\ dias_sin_pagar_en 1 credito pagos_permutados fecha = Some 73
      /\ saldo_credito 1 credito pagos_en_orden fecha = 10000%Q
      /\ saldo_credito 1 credito pagos_permutados fecha = 11000%Q
      /\ monto_pagado 1 credito pagos_en_orden fecha = Some 2000%Q
      /\ monto_pagado 1 credito pagos_permutados fecha = Some 2000%Q).
Proof.
  split; [|split; [|split]].
  - intros i c fecha antes p despues Hp Hrest.
    unfold fecha_ultimo_pago, saldo_credito, groupby_last.
    fold (calificados i (antes ++ p :: despues) fecha).
    rewrite (calificados_positional i fecha antes p despues Hp Hrest).
    rewrite !map_app. cbn [map]. now rewrite !ultimo_snoc.
  - intros i fecha pagos u. apply fecha_ultimo_pago_latest.
  - intros i c fecha pagos pagos'. apply monto_pagado_perm.
  - split; [apply perm_swap|]. vm_compute. repeat split.
Qed.

Lemma last_payment_is_last_row_witness :
  califica 1 fecha pago_febrero = true
  /\ fecha_ultimo_pago 1 pagos_permutados fecha
     = Some (fecha_pago pago_febrero)
  /\ saldo_credito 1 credito pagos_permutados fecha
     = saldo_posterior pago_febrero
  /\ monto_pagado 1 credito pagos_en_orden fecha
     = monto_pagado 1 credito pagos_permutados fecha.
Proof.
  destruct last_payment_is_last_row as (Hlast & _ & Hperm & _).
  split; [reflexivity|].
  destruct (Hlast 1 credito fecha [pago_marzo] pago_febrero [] eq_refl)
    as [Hf Hs]; [intros q []|].
  split; [exact Hf|]. split; [exact Hs|].
  apply Hperm. apply perm_swap.
Defined.

End PositionalLast.

(** * Further properties of the code *)

(** ** Payment status *)

Section Status.

Lemma Qltb_lt x y : Qltb x y = true <-> (x < y)%Q.
Proof.
  unfold Qltb. rewrite Qlt_alt. destruct (x ?= y)%Q; split; congruence.
Qed.

Lemma Qleb_le x y : Qleb x y = true <-> (x <= y)%Q.
Proof.
  unfold Qleb. rewrite Qle_alt. destruct (x ?= y)%Q; split; congruence.
Qed.

(** X1. The status is missing exactly when the required amount or the paid
    amount is missing. *)
Theorem estatus_missing_iff (monto_req monto_pag : option Q) :
  estatus monto_req monto_pag = None
  <-> monto_req = None \/ monto_pag = None.
Proof.
  split.
  - destruct monto_req as [r|], monto_pag as [p|]; auto.
    intros H. now apply estatus_defined in H.
  - intros [-> | ->]; [destruct monto_pag | destruct monto_req];
      reflexivity.
Qed.

Lemma estatus_cases (r p : Q) :
  estatus (Some r) (Some p)
  = if Qltb r p then Some ADELANTADO
    else if Qleb (r * (98 # 100)) p && Qleb p r then Some AL_CORRIENTE
    else if Qltb p (r * (98 # 100)) then Some ATRASADO
    else None.
Proof.
  unfold estatus, lt_Q, le_Q, gt_Q, test2. cbn [option_map].
  destruct (Qltb r p); [reflexivity|].
  destruct (Qleb (r * (98 # 100)) p && Qleb p r); reflexivity.
Qed.

(** X2. When the required amount is not negative the three tests of
    [estatus] exclude one another: the status is ["Atrasado"] exactly below
    98% of the required amount, ["Adelantado"] exactly above the required
    amount and ["Al Corriente"] exactly in between. *)
Theorem estatus_classification (monto_req monto_pag : Q) :
  (0 <= monto_req)%Q ->
  (estatus (Some monto_req) (Some monto_pag) = Some "Atrasado"
   <-> (monto_pag < monto_req * (98 # 100))%Q)
  /\ (estatus (Some monto_req) (Some monto_pag) = Some "Al Corriente"
      <-> (monto_req * (98 # 100) <= monto_pag)%Q
          /\ (monto_pag <= monto_req)%Q)
  /\ (estatus (Some monto_req) (Some monto_pag) = Some "Adelantado"
      <-> (monto_req < monto_pag)%Q).
Proof.
  intros Hreq. rewrite estatus_cases.
  destruct (Qltb monto_req monto_pag) eqn:Hgt;
    [apply Qltb_lt in Hgt
    |apply Qltb_false_Qleb, Qleb_le in Hgt].
  - repeat split; intros; try discriminate; lra.
  - destruct (Qleb (monto_req * (98 # 100)) monto_pag) eqn:Hu; cbn [andb].
    + apply Qleb_le in Hu.
      replace (Qleb monto_pag monto_req) with true
        by (symmetry; now apply Qleb_le).
      repeat split; intros; try discriminate; lra.
    + assert (Hlt : Qltb monto_pag (monto_req * (98 # 100)) = true).
      { unfold Qltb, Qleb in *.
        rewrite <- (Qcompare_antisym monto_pag) in Hu.
        destruct (monto_pag ?= monto_req * (98 # 100))%Q; cbn in Hu;
          congruence. }
      rewrite Hlt. apply Qltb_lt in Hlt.
      repeat split; intros; try discriminate; lra.
Qed.

Lemma estatus_classification_witness :
  (0 <= 4000)%Q
  /\ estatus (Some 4000%Q) (Some 3919%Q) = Some "Atrasado"
  /\ estatus (Some 4000%Q) (Some 3920%Q) = Some "Al Corriente"
  /\ estatus (Some 4000%Q) (Some 4001%Q) = Some "Adelantado".
Proof.
  assert (H : (0 <= 4000)%Q) by lra.
  destruct (estatus_classification 4000 3919 H) as (Ha & _ & _).
  destruct (estatus_classification 4000 3920 H) as (_ & Hc & _).
  destruct (estatus_classification 4000 4001 H) as (_ & _ & Hd).
  split; [exact H|]. split; [|split].
  - apply Ha. reflexivity.
  - apply Hc. split; discriminate.
  - apply Hd. reflexivity.
Defined.

End Status.

(** ** The bucket of a row *)

Section Buckets.

Ltac resolver_cascada :=
  repeat match goal with
         | |- context [if ?b then _ else _] =>
             destruct b eqn:?; cbv beta iota
         end.

(** X3. A row of a credit that has opened makes [logica_paridad] fail
    exactly when it has a missing status and no arrears:
    a row of a credit that has not opened never fails. *)
Theorem logica_paridad_fails_iff (row : Fila.t) (fecha : Timestamp) :
  logica_paridad row fecha = TypeError
  <-> ltb fecha (Fila.fecha_apertura row) = false
      /\ FloatOps.le_k (Fila.atraso_pagos row) 0 = true
      /\ Fila.estatus row = None.
Proof.
  unfold logica_paridad.
  destruct (ltb fecha (Fila.fecha_apertura row)).
  - split; [discriminate | intros (H & _); discriminate].
  - destruct (FloatOps.le_k (Fila.atraso_pagos row) 0).
    + destruct (Fila.estatus row) as [est|].
      * split; [|intros (_ & _ & H); discriminate].
        resolver_cascada; discriminate.
      * tauto.
    + split; [|intros (_ & H & _); discriminate].
      resolver_cascada; discriminate.
Qed.

(** X4. Whatever the row, a bucket returned by [logica_paridad] is one of
    the ten labels. *)
Theorem logica_paridad_labels (row : Fila.t) (fecha : Timestamp)
        (bucket : string) :
  logica_paridad row fecha = Ok bucket -> In bucket etiquetas.
Proof.
  unfold logica_paridad, etiquetas.
  destruct (Fila.estatus row);
    resolver_cascada; intros [= <-]; cbn; tauto.
Qed.

Lemma logica_paridad_labels_witness :
  logica_paridad Escenarios.fila Escenarios.fecha = Ok "PAR 120"
  /\ In "PAR 120" etiquetas.
Proof.
  split; [reflexivity|].
  exact (logica_paridad_labels Escenarios.fila Escenarios.fecha "PAR 120"
                               eq_refl).
Defined.

Lemma severidad_dias_range dias : 1 <= severidad_dias dias <= 9.
Proof. unfold severidad_dias. resolver_cascada; lia. Qed.

Lemma severidad_atraso_range atraso : 1 <= severidad_atraso atraso <= 9.
Proof. unfold severidad_atraso. resolver_cascada; lia. Qed.

Lemma ge_k_weaken atraso k k' :
  FloatOps.ge_k atraso k = true -> k' <= k -> FloatOps.ge_k atraso k' = true.
Proof.
  destruct atraso; cbn; try discriminate; [|reflexivity].
  rewrite !Z.leb_le. lia.
Qed.

Lemma gt_Z_weaken dias k k' :
  gt_Z dias k = true -> k' <= k -> gt_Z dias k' = true.
Proof.
  destruct dias as [d|]; cbn; [|discriminate].
  rewrite !Z.ltb_lt. lia.
Qed.

(** The days-only cascade of the branch without arrears. *)
Lemma cascada_dias (dias : option Z) :
  exists bucket,
    (if gt_Z dias 360 then Ok "PAR 360"
     else if gt_Z dias 270 then Ok "PAR 270"
     else if gt_Z dias 180 then Ok "PAR 180"
     else if gt_Z dias 150 then Ok "PAR 150"
     else if gt_Z dias 120 then Ok "PAR 120"
     else if gt_Z dias 90 then Ok "PAR 90"
     else if gt_Z dias 60 then Ok "PAR 60"
     else if gt_Z dias 30 then Ok "PAR 30"
     else Ok "PAR 1") = Ok bucket
    /\ severidad bucket = severidad_dias dias.
Proof.
  unfold severidad_dias.
  resolver_cascada; eexists; split; reflexivity.
Qed.

(** One level of the cascade with arrears: the day test, then the arrears
    test. *)
Ltac paso d a k s :=
  destruct (gt_Z d k) eqn:?;
  [ cbv beta iota; cbn [orb]; eexists; split; [reflexivity|];
    resolver_cascada; reflexivity
  | cbn [orb]; destruct (FloatOps.ge_k a s) eqn:?;
    [ cbv beta iota; eexists; split; [reflexivity|];
      resolver_cascada; reflexivity
    | cbv beta iota ] ].

(** The cascade of the branch with arrears. *)
Lemma cascada_dias_o_atraso (dias : option Z) (atraso : Float) :
  exists bucket,
    (if gt_Z dias 360 || FloatOps.ge_k atraso 13 then Ok "PAR 360"
     else if gt_Z dias 270 || FloatOps.ge_k atraso 10 then Ok "PAR 270"
     else if gt_Z dias 180 || FloatOps.ge_k atraso 7 then Ok "PAR 180"
     else if gt_Z dias 150 || FloatOps.ge_k atraso 6 then Ok "PAR 150"
     else if gt_Z dias 120 || FloatOps.ge_k atraso 5 then Ok "PAR 120"
     else if gt_Z dias 90 || FloatOps.ge_k atraso 4 then Ok "PAR 90"
     else if gt_Z dias 60 || FloatOps.ge_k atraso 3 then Ok "PAR 60"
     else if gt_Z dias 30 || FloatOps.ge_k atraso 2 then Ok "PAR 30"
     else Ok "PAR 1") = Ok bucket
    /\ severidad bucket
       = Z.max (severidad_dias dias) (severidad_atraso atraso).
Proof.
  unfold severidad_dias, severidad_atraso.
  paso dias atraso 360 13.
  paso dias atraso 270 10.
  paso dias atraso 180 7.
  paso dias atraso 150 6.
  paso dias atraso 120 5.
  paso dias atraso 90 4.
  paso dias atraso 60 3.
  paso dias atraso 30 2.
  eexists; split; reflexivity.
Qed.

End Buckets.

Section Severity.

Lemma logica_paridad_severidad (row : Fila.t) (fecha : Timestamp)
      (est : string) :
  leb (Fila.fecha_apertura row) fecha = true ->
  Fila.estatus row = Some est ->
  exists bucket,
    logica_paridad row fecha = Ok bucket
    /\ severidad bucket
       = if FloatOps.le_k (Fila.atraso_pagos row) 0
         then if negb (String.eqb est "Atrasado") then 0
              else severidad_dias (Fila.dias_sin_pagar row)
         else Z.max (severidad_dias (Fila.dias_sin_pagar row))
                    (severidad_atraso (Fila.atraso_pagos row)).
Proof.
  intros Hop Hest. unfold logica_paridad.
  rewrite ltb_negb_leb, Hop, Hest. cbn [negb].
  destruct (FloatOps.le_k (Fila.atraso_pagos row) 0).
  - destruct (negb (String.eqb est "Atrasado")).
    + eexists; split; reflexivity.
    + apply cascada_dias.
  - apply cascada_dias_o_atraso.
Qed.

(** X5. For a row of an opened credit with a status, the bucket is
    ["Al Corriente"] without arrears and a status other than ["Atrasado"], the
    bucket of the days alone without arrears and the status ["Atrasado"], and
    with arrears the more severe of the bucket of the days alone and the
    bucket of the arrears alone. *)
Theorem logica_paridad_most_severe (row : Fila.t) (fecha : Timestamp)
        (est : string) :
  leb (Fila.fecha_apertura row) fecha = true ->
  Fila.estatus row = Some est ->
  exists bucket,
    logica_paridad row fecha = Ok bucket
    /\ severidad bucket
       = if FloatOps.le_k (Fila.atraso_pagos row) 0
         then if negb (String.eqb est "Atrasado") then 0
              else severidad_dias (Fila.dias_sin_pagar row)
         else Z.max (severidad_dias (Fila.dias_sin_pagar row))
                    (severidad_atraso (Fila.atraso_pagos row)).
Proof.
  intros Hop Hest. unfold logica_paridad.
  rewrite ltb_negb_leb, Hop, Hest. cbn [negb].
  destruct (FloatOps.le_k (Fila.atraso_pagos row) 0).
  - destruct (negb (String.eqb est "Atrasado")).
    + eexists; split; reflexivity.
    + apply cascada_dias.
  - apply cascada_dias_o_atraso.
Qed.

Lemma logica_paridad_most_severe_witness :
  leb (Fila.fecha_apertura Escenarios.fila) Escenarios.fecha = true
  /\ Fila.estatus Escenarios.fila = Some "Atrasado"
  /\ exists bucket,
      logica_paridad Escenarios.fila Escenarios.fecha = Ok bucket
      /\ severidad bucket = 5.
Proof.
  split; [reflexivity|]. split; [reflexivity|].
  exact (logica_paridad_most_severe Escenarios.fila Escenarios.fecha
                                    "Atrasado" eq_refl eq_refl).
Defined.

Lemma severidad_dias_mono d1 d2 :
  d1 <= d2 -> severidad_dias (Some d1) <= severidad_dias (Some d2).
Proof.
  intros Hle. unfold severidad_dias, gt_Z.
  repeat match goal with
         | |- context [?k <? ?d] =>
             destruct (Z.ltb_spec k d); cbv beta iota; try lia
         end.
Qed.

Lemma severidad_atraso_mono a1 a2 :
  FloatOps.le a1 a2 -> severidad_atraso a1 <= severidad_atraso a2.
Proof.
  pose proof (severidad_atraso_range a1) as R1.
  pose proof (severidad_atraso_range a2) as R2.
  destruct a1 as [| |z1|], a2 as [| |z2|]; cbn [FloatOps.le];
    try contradiction; intros Hle.
  - change (severidad_atraso NegInf) with 1. lia.
  - change (severidad_atraso NegInf) with 1. lia.
  - change (severidad_atraso NegInf) with 1. lia.
  - clear R1 R2. unfold severidad_atraso, FloatOps.ge_k.
    repeat match goal with
           | |- context [?k <=? ?z] =>
               destruct (Z.leb_spec k z); cbv beta iota; try lia
           end.
  - change (severidad_atraso PosInf) with 9. lia.
  - change (severidad_atraso PosInf) with 9. lia.
Qed.

Lemma le_k_mono a1 a2 k :
  FloatOps.le a1 a2 -> FloatOps.le_k a2 k = true -> FloatOps.le_k a1 k = true.
Proof.
  destruct a1, a2; cbn; try contradiction; try discriminate; auto.
  rewrite !Z.leb_le. lia.
Qed.

(** X6. Severity never decreases with longer days without payment or more
    installments in arrears: of two rows of opened credits with the same
    status, the one with at least as many days and at least as many arrears
    gets a bucket at least as severe. *)
Theorem logica_paridad_monotone (apertura fecha : Timestamp) (est : string)
        (d1 d2 : Z) (a1 a2 : Float) (b1 b2 : string) :
  leb apertura fecha = true ->
  d1 <= d2 ->
  FloatOps.le a1 a2 ->
  logica_paridad (Fila.mk apertura (Some est) (Some d1) a1) fecha = Ok b1 ->
  logica_paridad (Fila.mk apertura (Some est) (Some d2) a2) fecha = Ok b2 ->
  severidad b1 <= severidad b2.
Proof.
  intros Hop Hd Ha H1 H2.
  destruct (logica_paridad_severidad
              (Fila.mk apertura (Some est) (Some d1) a1) fecha est
              Hop eq_refl) as (b1' & E1 & S1).
  destruct (logica_paridad_severidad
              (Fila.mk apertura (Some est) (Some d2) a2) fecha est
              Hop eq_refl) as (b2' & E2 & S2).
  rewrite H1 in E1. rewrite H2 in E2.
  injection E1 as <-. injection E2 as <-.
  rewrite S1, S2. cbn [Fila.atraso_pagos Fila.dias_sin_pagar].
  pose proof (severidad_dias_mono d1 d2 Hd).
  pose proof (severidad_atraso_mono a1 a2 Ha).
  pose proof (severidad_dias_range (Some d2)).
  pose proof (severidad_dias_range (Some d1)).
  destruct (FloatOps.le_k a2 0) eqn:L2.
  - rewrite (le_k_mono a1 a2 0 Ha L2).
    destruct (negb (String.eqb est "Atrasado")); lia.
  - destruct (FloatOps.le_k a1 0);
      [destruct (negb (String.eqb est "Atrasado"))|]; lia.
Qed.

Lemma logica_paridad_monotone_witness :
  leb (mkTimestamp 2023 1 1) Escenarios.fecha = true
  /\ 40 <= 134
  /\ FloatOps.le (Int 1) (Int 4)
  /\ severidad "PAR 30" <= severidad "PAR 120".
Proof.
  split; [reflexivity|]. split; [lia|]. split; [cbn; lia|].
  apply (logica_paridad_monotone (mkTimestamp 2023 1 1) Escenarios.fecha
                                 "Atrasado" 40 134 (Int 1) (Int 4));
    try reflexivity; cbn; lia.
Defined.

End Severity.

(** ** Required installments along the calendar *)

Section ScheduleCalendar.

Variable c : Credito.

(** X7. With a term that is not negative, the required installments never
    decrease as the reference date advances. *)
Theorem pagos_requeridos_monotone (d1 d2 : Timestamp) (n1 n2 : Z) :
  0 <= plazo c ->
  valid d1 -> valid d2 -> leb d1 d2 = true ->
  pagos_requeridos c d1 = Some n1 ->
  pagos_requeridos c d2 = Some n2 ->
  n1 <= n2.
Proof.
  intros Hplazo V1 V2 Hle. unfold pagos_requeridos.
  destruct (leb (fecha_apertura c) d1); [|discriminate].
  destruct (leb (fecha_apertura c) d2); [|discriminate].
  intros [= <-] [= <-].
  apply (clip_mono _ _ _ _ Hplazo),
    (meses_transcurridos_mono c d1 d2 Hle V1 V2).
Qed.

Lemma leb_MonthEnd0 fecha : valid fecha -> leb fecha (MonthEnd0 fecha) = true.
Proof.
  intros [_ Hd]. apply leb_le. unfold MonthEnd0, toordinal. cbn. lia.
Qed.

Lemma meses_transcurridos_MonthEnd0 fecha :
  meses_transcurridos c (MonthEnd0 fecha)
  = (year fecha - year (fecha_primer_pago c)) * 12
    + (month fecha - month (fecha_primer_pago c)) + 1.
Proof.
  unfold meses_transcurridos.
  replace (eqb (MonthEnd0 fecha) (MonthEnd0 (MonthEnd0 fecha))) with true
    by (symmetry; apply Z.eqb_refl).
  cbn. lia.
Qed.

(** X8. With a term that is not negative, on the last day of a month the
    installment of that month is due whatever the day of the first payment:
    the count on any day of the month is the count of the month end or one
    less. *)
Theorem pagos_requeridos_month_end (fecha : Timestamp) (n : Z) :
  0 <= plazo c ->
  valid fecha ->
  pagos_requeridos c fecha = Some n ->
  pagos_requeridos c (MonthEnd0 fecha)
  = Some (clip 0 (plazo c)
               ((year fecha - year (fecha_primer_pago c)) * 12
                + (month fecha - month (fecha_primer_pago c)) + 1))
  /\ exists m, pagos_requeridos c (MonthEnd0 fecha) = Some m
               /\ n <= m <= n + 1.
Proof.
  intros Hplazo V. unfold pagos_requeridos at 1.
  destruct (leb (fecha_apertura c) fecha) eqn:Hop; [|discriminate].
  intros [= <-].
  pose proof (leb_trans _ _ _ Hop (leb_MonthEnd0 fecha V)) as Hop'.
  rewrite (pagos_requeridos_opened c _ Hop').
  rewrite meses_transcurridos_MonthEnd0.
  split; [reflexivity|]. eexists; split; [reflexivity|].
  rewrite !(clip_min_max _ _ _ Hplazo). unfold meses_transcurridos.
  destruct (negb (eqb fecha (MonthEnd0 fecha))
            && (day fecha <? day (fecha_primer_pago c))); lia.
Qed.

End ScheduleCalendar.

Lemma pagos_requeridos_monotone_witness :
  0 <= plazo Escenarios.credito
  /\ valid (mkTimestamp 2023 4 1) /\ valid Escenarios.fecha
  /\ leb (mkTimestamp 2023 4 1) Escenarios.fecha = true
  /\ 3 <= 4.
Proof.
  assert (Hp : 0 <= plazo Escenarios.credito) by (cbn; lia).
  assert (V1 : valid (mkTimestamp 2023 4 1)) by (split; cbn; lia).
  assert (V2 : valid Escenarios.fecha) by (split; cbn; lia).
  split; [exact Hp|]. split; [exact V1|]. split; [exact V2|].
  split; [reflexivity|].
  exact (pagos_requeridos_monotone Escenarios.credito (mkTimestamp 2023 4 1)
                                   Escenarios.fecha 3 4 Hp V1 V2 eq_refl
                                   eq_refl eq_refl).
Defined.

Lemma pagos_requeridos_month_end_witness :
  0 <= plazo Escenarios.credito_dia_20
  /\ valid Escenarios.fecha
  /\ pagos_requeridos Escenarios.credito_dia_20 Escenarios.fecha = Some 3
  /\ pagos_requeridos Escenarios.credito_dia_20
                      (MonthEnd0 Escenarios.fecha) = Some 4.
Proof.
  assert (Hp : 0 <= plazo Escenarios.credito_dia_20) by (cbn; lia).
  assert (V : valid Escenarios.fecha) by (split; cbn; lia).
  split; [exact Hp|]. split; [exact V|]. split; [reflexivity|].
  exact (proj1 (pagos_requeridos_month_end Escenarios.credito_dia_20
                                           Escenarios.fecha 3 Hp V eq_refl)).
Defined.

(** ** Days without payment and the last payment *)

Section DaysUnpaid.

(** X9. The days without payment are missing exactly when the credit has
    neither a last payment nor opened; when present they are never negative;
    and after a payment they are 0 exactly while the payment is at most 30
    days old. *)
Theorem dias_sin_pagar_defined_nonneg (c : Credito)
        (fecha_ult_pago : option Timestamp) (fecha : Timestamp) :
  (dias_sin_pagar c fecha_ult_pago fecha = None
   <-> fecha_ult_pago = None /\ ltb fecha (fecha_apertura c) = true)
  /\ (forall d, dias_sin_pagar c fecha_ult_pago fecha = Some d -> 0 <= d)
  /\ (forall u, fecha_ult_pago = Some u ->
        (dias_sin_pagar c fecha_ult_pago fecha = Some 0
         <-> days_between fecha u <= 30)).
Proof.
  unfold dias_sin_pagar. rewrite ltb_negb_leb.
  destruct fecha_ult_pago as [u|]; cbn.
  - split; [split; [discriminate | intros [H _]; discriminate]|].
    split; [intros d [= <-]; lia|].
    intros u0 [= <-].
    split; [intros [= H]; lia | intros H; f_equal; lia].
  - destruct (leb (fecha_apertura c) fecha) eqn:Hop; cbn.
    + split; [split; [discriminate | intros [_ H]; discriminate]|].
      split; [|discriminate].
      intros d [= <-]. apply leb_le in Hop. unfold days_between. lia.
    + split; [tauto|]. split; discriminate.
Qed.

Variable i : Z.
Variable creditos_pagos : CreditosPagos.
Variable fecha : Timestamp.

(** X10. The last payment date, when there is one, is the date of a ledger
    row of the credit and is not after the reference date; there is none
    exactly when no ledger row of the credit is dated up to the reference
    date. *)
Theorem fecha_ultimo_pago_sound :
  (forall u, fecha_ultimo_pago i creditos_pagos fecha = Some u ->
             leb u fecha = true
             /\ exists p, In p creditos_pagos /\ id_credito p = i
                          /\ fecha_pago p = u)
  /\ (fecha_ultimo_pago i creditos_pagos fecha = None
      <-> forall p, In p creditos_pagos -> califica i fecha p = false).
Proof.
  unfold fecha_ultimo_pago, groupby_last.
  fold (calificados i creditos_pagos fecha).
  rewrite ultimo_map, calificados_filter. split.
  - intros u.
    destruct (ultimo (filter (califica i fecha) creditos_pagos)) as [p|] eqn:E;
      [|discriminate].
    cbn. intros [= <-]. apply ultimo_In, filter_In in E.
    destruct E as [Hin Hcal]. unfold califica in Hcal.
    apply andb_true_iff in Hcal. destruct Hcal as [Hd Hi].
    split; [exact Hd|]. exists p. apply Z.eqb_eq in Hi. auto.
  - split.
    + intros Hnone p Hin.
      destruct (califica i fecha p) eqn:Hcal; [|reflexivity].
      assert (Hp : In p (filter (califica i fecha) creditos_pagos))
        by (apply filter_In; auto).
      destruct (filter (califica i fecha) creditos_pagos) as [|q l] eqn:E;
        [contradiction|].
      destruct (ultimo (q :: l)) eqn:Eu; [discriminate|].
      exfalso. clear - Eu. revert q Eu.
      induction l as [|q' l IH]; intros q Eu; [discriminate|].
      now apply (IH q').
    + intros Hno. now rewrite (filter_none _ _ Hno).
Qed.

End DaysUnpaid.

(** ** Rounding of the installments paid *)

Section Rounding.

Local Open Scope Q_scope.

Lemma np_round_bounds x : (Qfloor x <= np_round x <= Qfloor x + 1)%Z.
Proof.
  unfold np_round.
  destruct (x - inject_Z (Qfloor x) ?= 1 # 2);
    [destruct (Z.even (Qfloor x))| |]; lia.
Qed.

Lemma np_round_comp x y : x == y -> np_round x = np_round y.
Proof.
  intros E. unfold np_round.
  rewrite (Qfloor_comp _ _ E).
  assert (E' : x - inject_Z (Qfloor y) == y - inject_Z (Qfloor y))
    by now rewrite E.
  now rewrite (Qcompare_comp _ _ E' (1 # 2) (1 # 2) (Qeq_refl _)).
Qed.

Lemma Qfloor_unique x (k : Z) :
  inject_Z k <= x -> x < inject_Z k + 1 -> Qfloor x = k.
Proof.
  intros Hle Hlt.
  pose proof (Qfloor_le x) as H1. pose proof (Qlt_floor x) as H2.
  rewrite inject_Z_plus in H2. change (inject_Z 1) with 1 in H2.
  assert (A : inject_Z (Qfloor x) < inject_Z (k + 1)).
  { rewrite inject_Z_plus. change (inject_Z 1) with 1. lra. }
  assert (B : inject_Z k < inject_Z (Qfloor x + 1)).
  { rewrite inject_Z_plus. change (inject_Z 1) with 1. lra. }
  rewrite <- Zlt_Qlt in A, B. lia.
Qed.

Lemma np_round_below_half (k : Z) e :
  0 <= e -> e < 1 # 2 -> np_round (inject_Z k + e) = k.
Proof.
  intros H0 H1. unfold np_round.
  rewrite (Qfloor_unique (inject_Z k + e) k) by lra.
  destruct (Qcompare_spec (inject_Z k + e - inject_Z k) (1 # 2));
    [exfalso; lra | reflexivity | exfalso; lra].
Qed.


Lemma np_round_mono x y : x <= y -> (np_round x <= np_round y)%Z.
Proof.
  intros Hle.
  pose proof (Qfloor_resp_le x y Hle) as Hf.
  pose proof (np_round_bounds x) as Bx.
  pose proof (np_round_bounds y) as By.
  destruct (Z.eq_dec (Qfloor x) (Qfloor y)) as [E|]; [|lia].
  clear Bx By Hf. unfold np_round. rewrite E.
  destruct (Qcompare_spec (x - inject_Z (Qfloor y)) (1 # 2)) as [Hx|Hx|Hx];
    destruct (Qcompare_spec (y - inject_Z (Qfloor y)) (1 # 2)) as [Hy|Hy|Hy];
    try destruct (Z.even (Qfloor y)); try lia; exfalso; lra.
Qed.

End Rounding.

(** ** Installments in arrears and the amount paid *)

Section Arrears.

Variable c : Credito.
Hypothesis cuota_positiva : (0 < cuota_mensual c)%Q.

Lemma cuota_no_nula : Qeq_bool (cuota_mensual c) 0 = false.
Proof.
  destruct (Qeq_bool (cuota_mensual c) 0) eqn:E; [|reflexivity].
  apply Qeq_bool_iff in E. lra.
Qed.

Lemma atraso_pagos_value (req : Z) (pag : Q) :
  atraso_pagos c (Some req) (Some pag)
  = Int (req - np_round (pag / cuota_mensual c + epsilon)).
Proof. unfold atraso_pagos. now rewrite cuota_no_nula. Qed.

Lemma pagos_realizados_mono (p1 p2 : Q) :
  (p1 <= p2)%Q ->
  np_round (p1 / cuota_mensual c + epsilon)
  <= np_round (p2 / cuota_mensual c + epsilon).
Proof.
  intros Hle. apply np_round_mono.
  apply Qplus_le_compat; [|apply Qle_refl].
  unfold Qdiv. apply Qmult_le_compat_r; [exact Hle|].
  apply Qinv_le_0_compat. lra.
Qed.

(** X11. With a positive installment, paying more never raises the
    installments in arrears. *)
Theorem atraso_pagos_antitone (req : Z) (p1 p2 : Q) :
  (p1 <= p2)%Q ->
  FloatOps.le (atraso_pagos c (Some req) (Some p2))
              (atraso_pagos c (Some req) (Some p1)).
Proof.
  intros Hle. rewrite !atraso_pagos_value. cbn.
  pose proof (pagos_realizados_mono p1 p2 Hle). lia.
Qed.

Lemma pagos_realizados_whole (k : Z) (pag : Q) :
  (pag == inject_Z k * cuota_mensual c)%Q ->
  np_round (pag / cuota_mensual c + epsilon) = k.
Proof.
  intros E.
  rewrite (np_round_comp _ (inject_Z k + epsilon)).
  - apply np_round_below_half; unfold epsilon; lra.
  - rewrite E, Qdiv_mult_l; [reflexivity | lra].
Qed.


End Arrears.

Lemma atraso_pagos_antitone_witness :
  (0 < cuota_mensual Escenarios.credito)%Q
  /\ (1000 <= 2500)%Q
  /\ FloatOps.le (atraso_pagos Escenarios.credito (Some 4) (Some 2500%Q))
                 (atraso_pagos Escenarios.credito (Some 4) (Some 1000%Q)).
Proof.
  assert (Hc : (0 < cuota_mensual Escenarios.credito)%Q) by reflexivity.
  assert (Hp : (1000 <= 2500)%Q) by discriminate.
  split; [exact Hc|]. split; [exact Hp|].
  exact (atraso_pagos_antitone Escenarios.credito Hc 4 1000 2500 Hp).
Defined.


(** ** The pipeline at one credit *)

Section Pipeline.

Variable i : Z.
Variable c : Credito.
Variable creditos_pagos : CreditosPagos.
Variable fecha : Timestamp.

(** X13. A credit that has not opened is ["Al Corriente"], whatever the
    ledger holds. *)
Theorem paridad_credito_unopened :
  ltb fecha (fecha_apertura c) = true ->
  paridad_credito i c creditos_pagos fecha = Ok "Al Corriente".
Proof.
  intros H. unfold paridad_credito, tipo_paridad, logica_paridad.
  cbn [Fila.fecha_apertura]. now rewrite H.
Qed.

(** X14. With a term that is not negative and a positive installment, a
    credit that has paid at least the required amount is ["Al Corriente"],
    however long ago its last payment was. *)
Theorem paridad_credito_paid_up (req : Z) (pag : Q) :
  0 <= plazo c ->
  (0 < cuota_mensual c)%Q ->
  pagos_requeridos c fecha = Some req ->
  monto_pagado i c creditos_pagos fecha = Some pag ->
  (cuota_mensual c * inject_Z req <= pag)%Q ->
  paridad_credito i c creditos_pagos fecha = Ok "Al Corriente".
Proof.
  intros Hplazo Hcuota Hreq Hpag Hpaid.
  assert (Hop : leb (fecha_apertura c) fecha = true).
  { unfold pagos_requeridos in Hreq.
    destruct (leb (fecha_apertura c) fecha); [reflexivity|discriminate]. }
  assert (Hreq0 : 0 <= req).
  { rewrite (pagos_requeridos_opened c fecha Hop) in Hreq.
    injection Hreq as <-. now apply clip_bounds. }
  assert (Hreq0' : (0 <= inject_Z req)%Q)
    by (change 0%Q with (inject_Z 0); now rewrite <- Zle_Qle).
  unfold paridad_credito, tipo_paridad, logica_paridad.
  cbn [Fila.fecha_apertura Fila.atraso_pagos Fila.estatus
       Fila.dias_sin_pagar].
  rewrite ltb_negb_leb, Hop, Hreq, Hpag. cbn [negb].
  rewrite (atraso_pagos_value c Hcuota).
  assert (Hround : req <= np_round (pag / cuota_mensual c + epsilon)).
  { rewrite <- (pagos_realizados_whole c Hcuota req
                  (inject_Z req * cuota_mensual c)) at 1
      by reflexivity.
    apply pagos_realizados_mono; [exact Hcuota|]. lra. }
  replace (FloatOps.le_k
             (Int (req - np_round (pag / cuota_mensual c + epsilon))) 0)
    with true by (symmetry; apply Z.leb_le; lia).
  cbn [monto_requerido option_map]. rewrite estatus_cases.
  assert (Hr0 : (0 <= cuota_mensual c * inject_Z req)%Q)
    by (apply Qmult_le_0_compat; lra).
  destruct (Qltb (cuota_mensual c * inject_Z req) pag) eqn:Hgt;
    [reflexivity|].
  apply Qltb_false_Qleb in Hgt. rewrite Hgt.
  replace (Qleb (cuota_mensual c * inject_Z req * (98 # 100)) pag) with true;
    [reflexivity|].
  symmetry. apply Qleb_le. lra.
Qed.

(** X15. The results of a credit depend on the ledger only through the rows
    of that credit dated up to the reference date: two ledgers with the same
    such rows, in the same order, give the same bucket and the same
    balance. *)
Theorem credit_results_depend_on_own_rows (otros_pagos : CreditosPagos) :
  calificados i creditos_pagos fecha = calificados i otros_pagos fecha ->
  paridad_credito i c creditos_pagos fecha
  = paridad_credito i c otros_pagos fecha
  /\ saldo_credito i c creditos_pagos fecha
     = saldo_credito i c otros_pagos fecha.
Proof.
  intros E.
  unfold paridad_credito, saldo_credito, monto_pagado, fecha_ultimo_pago,
    groupby_sum, groupby_last.
  fold (calificados i creditos_pagos fecha).
  fold (calificados i otros_pagos fecha).
  now rewrite E.
Qed.

(** X16. The balance is the initial balance when no ledger row of the credit
    is dated up to the reference date, whether the credit has opened or not,
    and otherwise the balance after one of those rows. *)
Theorem saldo_credito_source :
  (calificados i creditos_pagos fecha = [] ->
   saldo_credito i c creditos_pagos fecha = saldo_inicial c)
  /\ (calificados i creditos_pagos fecha <> [] ->
      exists p, In p creditos_pagos /\ califica i fecha p = true
                /\ saldo_credito i c creditos_pagos fecha
                   = saldo_posterior p).
Proof.
  unfold saldo_credito, groupby_last.
  fold (calificados i creditos_pagos fecha).
  rewrite ultimo_map. split.
  - now intros ->.
  - intros Hne.
    destruct (ultimo (calificados i creditos_pagos fecha)) as [p|] eqn:E.
    + exists p. apply ultimo_In in E. rewrite calificados_filter in E.
      apply filter_In in E. cbn. tauto.
    + exfalso. apply Hne. clear Hne.
      destruct (calificados i creditos_pagos fecha) as [|q l]; [reflexivity|].
      exfalso. revert q E.
      induction l as [|q' l IH]; intros q E; [discriminate|].
      now apply (IH q').
Qed.

End Pipeline.

Lemma paridad_credito_unopened_witness :
  ltb Escenarios.fecha (fecha_apertura Escenarios.credito_futuro) = true
  /\ paridad_credito 1 Escenarios.credito_futuro Escenarios.pago_anticipado
                     Escenarios.fecha = Ok "Al Corriente".
Proof.
  split; [reflexivity|].
  exact (paridad_credito_unopened 1 Escenarios.credito_futuro
                                  Escenarios.pago_anticipado Escenarios.fecha
                                  eq_refl).
Defined.

Lemma paridad_credito_paid_up_witness :
  0 <= plazo Escenarios.credito
  /\ (0 < cuota_mensual Escenarios.credito)%Q
  /\ pagos_requeridos Escenarios.credito Escenarios.fecha = Some 4
  /\ monto_pagado 1 Escenarios.credito Escenarios.pago_total
                  Escenarios.fecha = Some 4000%Q
  /\ paridad_credito 1 Escenarios.credito Escenarios.pago_total
                     Escenarios.fecha = Ok "Al Corriente".
Proof.
  assert (Hp : 0 <= plazo Escenarios.credito) by (cbn; lia).
  assert (Hc : (0 < cuota_mensual Escenarios.credito)%Q) by reflexivity.
  split; [exact Hp|]. split; [exact Hc|].
  split; [reflexivity|]. split; [reflexivity|].
  apply (paridad_credito_paid_up 1 Escenarios.credito Escenarios.pago_total
                                 Escenarios.fecha 4 4000 Hp Hc
                                 eq_refl eq_refl).
  discriminate.
Defined.

Lemma credit_results_depend_on_own_rows_witness :
  calificados 1 Escenarios.pagos_huerfanos Escenarios.fecha
  = calificados 1 [] Escenarios.fecha
  /\ paridad_credito 1 Escenarios.credito Escenarios.pagos_huerfanos
                     Escenarios.fecha
     = paridad_credito 1 Escenarios.credito [] Escenarios.fecha
  /\ saldo_credito 1 Escenarios.credito Escenarios.pagos_huerfanos
                   Escenarios.fecha
     = saldo_credito 1 Escenarios.credito [] Escenarios.fecha.
Proof.
  split; [reflexivity|].
  exact (credit_results_depend_on_own_rows
           1 Escenarios.credito Escenarios.pagos_huerfanos Escenarios.fecha
           [] eq_refl).
Defined.

(** ** The reference date of the prior period *)

Section PriorPeriod.

Lemma fecha_ajustada_eq fecha :
  fecha_ajustada fecha
  = if 1 <? month fecha
    then mkTimestamp (year fecha) (month fecha - 1)
                     (days_in_month (year fecha) (month fecha - 1))
    else mkTimestamp (year fecha - 1) 12 31.
Proof. reflexivity. Qed.

Lemma toordinal_fecha_ajustada fecha :
  1 <= month fecha <= 12 ->
  toordinal (fecha_ajustada fecha) = toordinal (month_start fecha) - 1.
Proof.
  intros Hm. rewrite fecha_ajustada_eq. unfold month_start, toordinal.
  destruct (Z.ltb_spec 1 (month fecha)) as [H|H]; cbn [year month day].
  - pose proof (days_before_month_succ (year fecha) (month fecha - 1)) as E.
    replace (month fecha - 1 + 1) with (month fecha) in E by lia.
    rewrite E by lia. lia.
  - replace (month fecha) with 1 by lia.
    pose proof (days_before_year_succ (year fecha - 1)) as E.
    replace (year fecha - 1 + 1) with (year fecha) in E by lia.
    rewrite E, <- december_closes_year.
    change (days_before_month (year fecha) 1) with 0. lia.
Qed.

(** X17. The date [paridad_inicial] and [saldo_inicial] work at is a valid
    date, the day before the first day of the month of the reference date,
    and the last day of its own month; it is the same for every reference
    date of a month. *)
Theorem fecha_ajustada_is_previous_month_end (fecha : Timestamp) :
  1 <= month fecha <= 12 ->
  valid (fecha_ajustada fecha)
  /\ days_between (month_start fecha) (fecha_ajustada fecha) = 1
  /\ eqb (fecha_ajustada fecha) (MonthEnd0 (fecha_ajustada fecha)) = true
  /\ (forall otra, year otra = year fecha -> month otra = month fecha ->
                   fecha_ajustada otra = fecha_ajustada fecha).
Proof.
  intros Hm. split; [|split; [|split]].
  - rewrite fecha_ajustada_eq. unfold valid.
    destruct (Z.ltb_spec 1 (month fecha)); cbn [year month day].
    + pose proof (days_in_month_bounds (year fecha) (month fecha - 1)). lia.
    + unfold days_in_month. cbn. lia.
  - unfold days_between. rewrite (toordinal_fecha_ajustada fecha Hm). lia.
  - apply es_ultimo_dia_mes_iff. rewrite fecha_ajustada_eq.
    destruct (Z.ltb_spec 1 (month fecha)); reflexivity.
  - intros otra Hy Hmo. unfold fecha_ajustada, month_start.
    now rewrite Hy, Hmo.
Qed.

Lemma fecha_ajustada_is_previous_month_end_witness :
  1 <= month (mkTimestamp 2024 3 15) <= 12
  /\ fecha_ajustada (mkTimestamp 2024 3 15) = mkTimestamp 2024 2 29
  /\ valid (fecha_ajustada (mkTimestamp 2024 3 15)).
Proof.
  assert (Hm : 1 <= month (mkTimestamp 2024 3 15) <= 12) by (cbn; lia).
  split; [exact Hm|]. split; [reflexivity|].
  exact (proj1 (fecha_ajustada_is_previous_month_end
                  (mkTimestamp 2024 3 15) Hm)).
Defined.

End PriorPeriod.

(** ** The reporting window along the calendar *)

Section WindowCalendar.

(** Two first days of a month compare as their (year, month). *)
Lemma leb_first_days (a b : Timestamp) :
  1 <= month a <= 12 -> 1 <= month b <= 12 -> day a = 1 -> day b = 1 ->
  (leb a b = true
   <-> year a < year b \/ (year a = year b /\ month a <= month b)).
Proof.
  intros Ma Mb Da Db.
  assert (Va : valid a)
    by (split; [exact Ma|];
        pose proof (days_in_month_bounds (year a) (month a)); lia).
  assert (Vb : valid b)
    by (split; [exact Mb|];
        pose proof (days_in_month_bounds (year b) (month b)); lia).
  rewrite leb_le. split.
  - intros Hle.
    destruct (toordinal_le_lex a b Va Vb Hle) as [H|H];
      unfold lex_lt in *; lia.
  - intros H.
    assert (Hc : lex_lt a b \/ (year a = year b /\ month a = month b))
      by (unfold lex_lt; lia).
    destruct Hc as [Hlt|[Hy Hm]].
    + apply Z.lt_le_incl. now apply toordinal_lex_lt.
    + unfold toordinal. rewrite Hy, Hm, Da, Db. lia.
Qed.

Lemma leb_month_start (a b : Timestamp) :
  valid a -> valid b -> leb a b = true ->
  leb (month_start a) (month_start b) = true.
Proof.
  intros Va Vb Hle.
  apply leb_first_days; try reflexivity; try apply Va; try apply Vb.
  apply leb_le in Hle.
  destruct (toordinal_le_lex a b Va Vb Hle) as [H|H];
    unfold lex_lt in *; cbn; lia.
Qed.

Variable c : Credito.
Hypothesis apertura_valida : valid (fecha_apertura c).

Lemma window_start_iff (fecha : Timestamp) :
  1 <= month fecha <= 12 ->
  (leb (next_month_start (fecha_apertura c)) (month_start fecha) = true
   <-> year (fecha_apertura c) < year fecha
       \/ (year (fecha_apertura c) = year fecha
           /\ month (fecha_apertura c) < month fecha)).
Proof.
  intros Mf. destruct apertura_valida as [Mo _].
  unfold next_month_start.
  destruct (Z.eqb_spec (month (fecha_apertura c)) 12) as [E|E];
    (rewrite leb_first_days;
     [cbn [year month day month_start]; lia
     | cbn; lia | exact Mf | reflexivity | reflexivity]).
Qed.

(** X18. A credit is never considered in the month it opened nor in an
    earlier month; from the month after its opening on, only its closing
    date (2200-12-31 without one) decides. *)
Theorem considerado_from_next_month (fecha : Timestamp) :
  1 <= month fecha <= 12 ->
  (year fecha < year (fecha_apertura c)
   \/ (year fecha = year (fecha_apertura c)
       /\ month fecha <= month (fecha_apertura c)) ->
   considerado c fecha = false)
  /\ (year (fecha_apertura c) < year fecha
      \/ (year (fecha_apertura c) = year fecha
          /\ month (fecha_apertura c) < month fecha) ->
      considerado c fecha = ltb (month_start fecha) (fecha_final c)).
Proof.
  intros Mf. unfold considerado.
  pose proof (window_start_iff fecha Mf) as W.
  destruct (leb (next_month_start (fecha_apertura c)) (month_start fecha)).
  - split; [|reflexivity].
    intros H. exfalso. destruct W as [W _]. specialize (W eq_refl). lia.
  - split; [reflexivity|].
    intros H. destruct W as [_ W]. specialize (W H). discriminate.
Qed.

(** X19. The months a credit is considered in form an interval: considered
    at two reference dates, it is considered at every date in between. *)
Theorem considerado_convex (f1 f2 f3 : Timestamp) :
  valid f1 -> valid f2 -> valid f3 ->
  leb f1 f2 = true -> leb f2 f3 = true ->
  considerado c f1 = true -> considerado c f3 = true ->
  considerado c f2 = true.
Proof.
  intros V1 V2 V3 H12 H23. unfold considerado.
  rewrite !andb_true_iff. intros [Hs1 _] [_ He3].
  pose proof (leb_month_start f1 f2 V1 V2 H12) as M12.
  pose proof (leb_month_start f2 f3 V2 V3 H23) as M23.
  split.
  - exact (leb_trans _ _ _ Hs1 M12).
  - apply ltb_lt. apply ltb_lt in He3. apply leb_le in M23. lia.
Qed.

End WindowCalendar.

Lemma considerado_from_next_month_witness :
  valid (fecha_apertura Escenarios.sin_cierre)
  /\ considerado Escenarios.sin_cierre (mkTimestamp 2023 1 31) = false
  /\ considerado Escenarios.sin_cierre (mkTimestamp 2023 2 1) = true.
Proof.
  assert (V : valid (fecha_apertura Escenarios.sin_cierre))
    by (split; cbn; lia).
  assert (M1 : 1 <= month (mkTimestamp 2023 1 31) <= 12) by (cbn; lia).
  assert (M2 : 1 <= month (mkTimestamp 2023 2 1) <= 12) by (cbn; lia).
  destruct (considerado_from_next_month Escenarios.sin_cierre V
              (mkTimestamp 2023 1 31) M1) as [Hsame _].
  destruct (considerado_from_next_month Escenarios.sin_cierre V
              (mkTimestamp 2023 2 1) M2) as [_ Hnext].
  split; [exact V|]. split.
  - apply Hsame. cbn. lia.
  - rewrite Hnext; [reflexivity | cbn; lia].
Defined.

Lemma considerado_convex_witness :
  leb (mkTimestamp 2023 2 10) (mkTimestamp 2023 2 20) = true
  /\ leb (mkTimestamp 2023 2 20) (mkTimestamp 2023 3 5) = true
  /\ considerado Escenarios.cerrado_dia_15 (mkTimestamp 2023 2 20) = true.
Proof.
  split; [reflexivity|]. split; [reflexivity|].
  apply (considerado_convex Escenarios.cerrado_dia_15
                            (mkTimestamp 2023 2 10) (mkTimestamp 2023 2 20)
                            (mkTimestamp 2023 3 5));
    try reflexivity; split; cbn; lia.
Defined.

(** ** The paid amount along the calendar *)

Section PaidAmount.

Local Open Scope Q_scope.

Lemma fold_left_Qplus_le (m : Pago -> Q) (f g : Pago -> bool)
      (l : CreditosPagos) :
  (forall p, In p l -> 0 <= m p) ->
  (forall p, f p = true -> g p = true) ->
  forall a b, a <= b ->
    fold_left Qplus (map m (filter f l)) a
    <= fold_left Qplus (map m (filter g l)) b.
Proof.
  intros Hpos Himp. induction l as [|p l IH]; intros a b Hab; [exact Hab|].
  assert (Hl : forall q, In q l -> 0 <= m q)
    by (intros; apply Hpos; now right).
  specialize (IH Hl).
  pose proof (Hpos p (or_introl eq_refl)) as Hp.
  cbn [filter]. destruct (f p) eqn:Hf.
  - rewrite (Himp p Hf). cbn. apply IH. lra.
  - destruct (g p); cbn; apply IH; lra.
Qed.

Lemma monto_pagado_is_sum i c creditos_pagos fecha x :
  monto_pagado i c creditos_pagos fecha = Some x ->
  x = suma (map monto_pago (filter (califica i fecha) creditos_pagos)).
Proof.
  unfold monto_pagado, groupby_sum.
  fold (calificados i creditos_pagos fecha). rewrite calificados_filter.
  destruct (filter (califica i fecha) creditos_pagos) as [|p l].
  - destruct (ltb fecha (fecha_apertura c)); cbn; [discriminate|].
    now intros [= <-].
  - rewrite orb_true_r. now intros [= <-].
Qed.

(** X20. When no payment of the ledger is negative, the paid amount of a
    credit never decreases as the reference date advances. *)
Theorem monto_pagado_monotone (i : Z) (c : Credito)
        (creditos_pagos : CreditosPagos) (d1 d2 : Timestamp) (x1 x2 : Q) :
  (forall p, In p creditos_pagos -> 0 <= monto_pago p) ->
  leb d1 d2 = true ->
  monto_pagado i c creditos_pagos d1 = Some x1 ->
  monto_pagado i c creditos_pagos d2 = Some x2 ->
  x1 <= x2.
Proof.
  intros Hpos Hle H1 H2.
  rewrite (monto_pagado_is_sum _ _ _ _ _ H1).
  rewrite (monto_pagado_is_sum _ _ _ _ _ H2).
  apply fold_left_Qplus_le; [exact Hpos | | apply Qle_refl].
  intros p. unfold califica. rewrite !andb_true_iff.
  intros [Hd Hi]. split; [|exact Hi].
  exact (leb_trans _ _ _ Hd Hle).
Qed.

End PaidAmount.

Lemma monto_pagado_monotone_witness :
  leb (mkTimestamp 2023 2 15) Escenarios.fecha = true
  /\ (1000 <= 2000)%Q.
Proof.
  split; [reflexivity|].
  apply (monto_pagado_monotone 1 Escenarios.credito Escenarios.pagos_en_orden
                               (mkTimestamp 2023 2 15) Escenarios.fecha);
    try reflexivity.
  intros p [<-|[<-|[]]]; discriminate.
Defined.

(** ** Payments dated after the reference date *)

Section AsOf.

Variable creditos : Creditos.
Variable creditos_pagos : CreditosPagos.
Variable fecha : Timestamp.

Lemma calificados_pagos_filtrados i :
  calificados i (pagos_filtrados creditos_pagos fecha) fecha
  = calificados i creditos_pagos fecha.
Proof.
  unfold calificados, pagos_filtrados. f_equal.
  induction creditos_pagos as [|p l IH]; [reflexivity|].
  cbn [filter]. destruct (leb (fecha_pago p) fecha) eqn:E; [|exact IH].
  cbn [filter]. now rewrite E, IH.
Qed.

(** X21. Only the ledger rows dated up to the reference date count: dropping
    every later row from the ledger changes no bucket and no balance. *)
Theorem later_payments_are_ignored :
  paridad creditos (pagos_filtrados creditos_pagos fecha) fecha
  = paridad creditos creditos_pagos fecha
  /\ saldo creditos (pagos_filtrados creditos_pagos fecha) fecha
     = saldo creditos creditos_pagos fecha.
Proof.
  split.
  - unfold paridad. apply mapM_ext_in. intros [i c] _. cbn [fst snd].
    unfold paridad_credito, monto_pagado, fecha_ultimo_pago, groupby_sum,
      groupby_last.
    fold (calificados i (pagos_filtrados creditos_pagos fecha) fecha).
    fold (calificados i creditos_pagos fecha).
    now rewrite calificados_pagos_filtrados.
  - unfold saldo. apply map_ext. intros [i c]. cbn [fst snd].
    unfold saldo_credito, groupby_last.
    fold (calificados i (pagos_filtrados creditos_pagos fecha) fecha).
    fold (calificados i creditos_pagos fecha).
    now rewrite calificados_pagos_filtrados.
Qed.

End AsOf.

(** ** The required amount *)

Section RequiredAmount.

Local Open Scope Q_scope.

(** X22. The required amount is missing exactly when the credit has not
    opened; with a term and an installment that are not negative it lies
    between 0 and the whole of the contract, [cuota_mensual * plazo]. *)
Theorem monto_requerido_range (c : Credito) (fecha : Timestamp) :
  (0 <= plazo c)%Z ->
  0 <= cuota_mensual c ->
  (monto_requerido c (pagos_requeridos c fecha) = None
   <-> ltb fecha (fecha_apertura c) = true)
  /\ (forall x, monto_requerido c (pagos_requeridos c fecha) = Some x ->
                0 <= x /\ x <= cuota_mensual c * inject_Z (plazo c)).
Proof.
  intros Hplazo Hcuota. rewrite ltb_negb_leb. unfold pagos_requeridos.
  destruct (leb (fecha_apertura c) fecha); cbn.
  - split; [split; discriminate|].
    intros x [= <-].
    pose proof (clip_bounds 0 (plazo c) (meses_transcurridos c fecha) Hplazo)
      as [Hlo Hhi].
    rewrite Zle_Qle in Hlo, Hhi. change (inject_Z 0) with 0 in Hlo.
    split.
    + now apply Qmult_le_0_compat.
    + rewrite !(Qmult_comm (cuota_mensual c)).
      now apply Qmult_le_compat_r.
  - split; [tauto | discriminate].
Qed.

End RequiredAmount.

Lemma monto_requerido_range_witness :
  0 <= plazo Escenarios.credito
  /\ (0 <= cuota_mensual Escenarios.credito)%Q
  /\ (0 <= 4000)%Q /\ (4000 <= 1000 * inject_Z 12)%Q.
Proof.
  assert (Hp : 0 <= plazo Escenarios.credito) by (cbn; lia).
  assert (Hc : (0 <= cuota_mensual Escenarios.credito)%Q) by discriminate.
  split; [exact Hp|]. split; [exact Hc|].
  exact (proj2 (monto_requerido_range Escenarios.credito Escenarios.fecha
                                      Hp Hc) 4000%Q eq_refl).
Defined.
